(** * LiteFS mount command: a shallow embedding of [cmd/litefs/mount.go]

    The mount command is glue code: it validates the configuration, builds
    the Store, the HTTP server, the Leaser and the FUSE file system, waits for
    the Store's readiness signal and starts the optional subcommand.

    Every method of [MountCommand] is embedded as a computation in a small
    monad [M] that threads the receiver together with the package-level
    variables, can return an error, panic or block, and records the calls made
    to the collaborating packages as a trace of [Event]s.  The behaviour of
    those packages (litefs, consul, fuse, http, os, os/exec, shellwords) is not
    part of this file of the repository: what each call answers is read from a
    [World] record.  Text written to stdout and to the log is not traced. *)

From Stdlib Require Import String Ascii List ZArith Bool Lia DecimalString.
Import ListNotations.
Local Open Scope string_scope.
Local Open Scope Z_scope.

(** ** Errors *)

(** Go [error] values.  [ErrNew] is an error built from a message
    ([fmt.Errorf] without [%w]), [ErrWrap p e] is [fmt.Errorf("p: %w", e)],
    [ErrExt] is an error handed back by a collaborator ([not_exist] is what
    [os.IsNotExist] answers on it), and the last two are the context errors. *)
Inductive error : Type :=
| ErrNew (msg : string)
| ErrWrap (prefix : string) (inner : error)
| ErrExt (descr : string) (not_exist : bool)
| ErrCanceled
| ErrDeadlineExceeded.

Fixpoint error_string (e : error) : string :=
  match e with
  | ErrNew msg => msg
  | ErrWrap prefix inner => prefix ++ ": " ++ error_string inner
  | ErrExt descr _ => descr
  | ErrCanceled => "context canceled"
  | ErrDeadlineExceeded => "context deadline exceeded"
  end.

(** [os.IsNotExist] looks at the error itself and does not unwrap [%w]. *)
Definition os_IsNotExist (e : error) : bool :=
  match e with
  | ErrExt _ b => b
  | _ => false
  end.

(** [%d] of an integer. *)
Definition Itoa (z : Z) : string := NilZero.string_of_int (Z.to_int z).

(** ** Configuration *)

(** Modelled from the spec: the [Config] type is declared outside
    [mount.go].  Its fields are those [mount.go] reads, the configuration
    surface of the spec: the two directories, the exec line, the lease mode
    (a consul section or a static section), candidate eligibility, the
    retention horizon and sweep interval, and the HTTP address.  Durations
    are Go's [time.Duration], a count of nanoseconds. *)

Module RetentionConfig.
Record t : Type := { Duration : Z; MonitorInterval : Z }.
End RetentionConfig.

Module HTTPConfig.
Record t : Type := { Addr : string }.
End HTTPConfig.

Module ConsulConfig.
Record t : Type := {
  URL : string;
  Hostname : string;
  AdvertiseURL : string;
  Key : string;
  TTL : Z;
  LockDelay : Z
}.
End ConsulConfig.

Module StaticConfig.
Record t : Type := {
  Primary : bool;
  Hostname : string;
  AdvertiseURL : string
}.
End StaticConfig.

(** Modelled from the spec: see above.  [Consul] and [Static] are pointers
    in the source: [None] is [nil]. *)
Record Config : Type := {
  MountDir : string;
  DataDir : string;
  Exec : string;
  Candidate : bool;
  Debug : bool;
  StrictVerify : bool;
  Retention : RetentionConfig.t;
  HTTP : HTTPConfig.t;
  Consul : option ConsulConfig.t;
  Static : option StaticConfig.t
}.

(** ** Collaborating packages, as far as [mount.go] touches them *)

Module consul.
(** Modelled from the spec: the [consul] package is outside [mount.go].  Its
    leaser has the knobs of the Leaser contract (coordination key, TTL,
    lock-delay, advertise URL, hostname); the built-in values that
    [consul.NewLeaser] gives to key, TTL and lock-delay are left open. *)
Record Defaults : Type := {
  DefaultKey : string;
  DefaultTTL : Z;
  DefaultLockDelay : Z
}.

Record Leaser : Type := {
  consulURL : string;
  hostname : string;
  advertiseURL : string;
  Key : string;
  TTL : Z;
  LockDelay : Z
}.

(** Modelled from the spec: [consul.NewLeaser(url, hostname, advertiseURL)]
    keeps its three arguments and starts the other knobs at the defaults. *)
Definition NewLeaser (d : Defaults) (url host adv : string) : Leaser :=
  {| consulURL := url; hostname := host; advertiseURL := adv;
     Key := DefaultKey d; TTL := DefaultTTL d; LockDelay := DefaultLockDelay d |}.

Definition set_Key (v : string) (l : Leaser) : Leaser :=
  {| consulURL := consulURL l; hostname := hostname l;
     advertiseURL := advertiseURL l;
     Key := v; TTL := TTL l; LockDelay := LockDelay l |}.

Definition set_TTL (v : Z) (l : Leaser) : Leaser :=
  {| consulURL := consulURL l; hostname := hostname l;
     advertiseURL := advertiseURL l;
     Key := Key l; TTL := v; LockDelay := LockDelay l |}.

Definition set_LockDelay (v : Z) (l : Leaser) : Leaser :=
  {| consulURL := consulURL l; hostname := hostname l;
     advertiseURL := advertiseURL l;
     Key := Key l; TTL := TTL l; LockDelay := v |}.
End consul.

Module fuse.
(** Modelled from the spec: the [fuse] package is outside [mount.go]; of the
    file system only the mount path matters here. *)
Record FileSystem : Type := { Path : string }.

Definition NewFileSystem (path : string) : FileSystem := {| Path := path |}.
End fuse.

Module http.
(** Modelled from the spec: the [http] package is outside [mount.go]; of the
    server only the address it listens on matters here. *)
Record Server : Type := { addr : string }.

Definition NewServer (a : string) : Server := {| addr := a |}.

Inductive Client : Type := NewClient.
End http.

Module litefs.
(** Modelled from the spec: the [litefs] package is outside [mount.go].  The
    static leaser is configured as permanent primary or permanent replica,
    with the hostname and advertise URL of the primary. *)
Record StaticLeaser : Type := {
  isPrimary : bool;
  hostname : string;
  advertiseURL : string
}.

Definition NewStaticLeaser (p : bool) (host adv : string) : StaticLeaser :=
  {| isPrimary := p; hostname := host; advertiseURL := adv |}.

(** Modelled from the spec: the [Leaser] interface with its two variants,
    the coordination-backend one and the static one. *)
Inductive Leaser : Type :=
| OfConsul (l : consul.Leaser)
| OfStatic (l : StaticLeaser).

(** Modelled from the spec: the Store, with the fields [mount.go] assigns
    and the two arguments of its constructor. *)
Record Store : Type := {
  path : string;
  candidate : bool;
  Debug : bool;
  StrictVerify : bool;
  RetentionDuration : Z;
  RetentionMonitorInterval : Z;
  Client : option http.Client;
  Leaser_ : option Leaser;
  Invalidator : option fuse.FileSystem
}.

(** Modelled from the spec: [NewStore(path, candidate)] keeps its two
    arguments; the fields [mount.go] sets afterwards start at their zero
    values here. *)
Definition NewStore (p : string) (cand : bool) : Store :=
  {| path := p; candidate := cand; Debug := false; StrictVerify := false;
     RetentionDuration := 0; RetentionMonitorInterval := 0;
     Client := None; Leaser_ := None; Invalidator := None |}.

Definition set_Debug (v : bool) (s : Store) : Store :=
  {| path := path s; candidate := candidate s; Debug := v;
     StrictVerify := StrictVerify s;
     RetentionDuration := RetentionDuration s;
     RetentionMonitorInterval := RetentionMonitorInterval s;
     Client := Client s; Leaser_ := Leaser_ s; Invalidator := Invalidator s |}.

Definition set_StrictVerify (v : bool) (s : Store) : Store :=
  {| path := path s; candidate := candidate s; Debug := Debug s;
     StrictVerify := v;
     RetentionDuration := RetentionDuration s;
     RetentionMonitorInterval := RetentionMonitorInterval s;
     Client := Client s; Leaser_ := Leaser_ s; Invalidator := Invalidator s |}.

Definition set_RetentionDuration (v : Z) (s : Store) : Store :=
  {| path := path s; candidate := candidate s; Debug := Debug s;
     StrictVerify := StrictVerify s;
     RetentionDuration := v;
     RetentionMonitorInterval := RetentionMonitorInterval s;
     Client := Client s; Leaser_ := Leaser_ s; Invalidator := Invalidator s |}.

Definition set_RetentionMonitorInterval (v : Z) (s : Store) : Store :=
  {| path := path s; candidate := candidate s; Debug := Debug s;
     StrictVerify := StrictVerify s;
     RetentionDuration := RetentionDuration s;
     RetentionMonitorInterval := v;
     Client := Client s; Leaser_ := Leaser_ s; Invalidator := Invalidator s |}.

Definition set_Client (v : option http.Client) (s : Store) : Store :=
  {| path := path s; candidate := candidate s; Debug := Debug s;
     StrictVerify := StrictVerify s;
     RetentionDuration := RetentionDuration s;
     RetentionMonitorInterval := RetentionMonitorInterval s;
     Client := v; Leaser_ := Leaser_ s; Invalidator := Invalidator s |}.

Definition set_Leaser (v : option Leaser) (s : Store) : Store :=
  {| path := path s; candidate := candidate s; Debug := Debug s;
     StrictVerify := StrictVerify s;
     RetentionDuration := RetentionDuration s;
     RetentionMonitorInterval := RetentionMonitorInterval s;
     Client := Client s; Leaser_ := v; Invalidator := Invalidator s |}.

Definition set_Invalidator (v : option fuse.FileSystem) (s : Store) : Store :=
  {| path := path s; candidate := candidate s; Debug := Debug s;
     StrictVerify := StrictVerify s;
     RetentionDuration := RetentionDuration s;
     RetentionMonitorInterval := RetentionMonitorInterval s;
     Client := Client s; Leaser_ := Leaser_ s; Invalidator := v |}.
End litefs.

Module exec.
(** [*exec.Cmd]: [Process] is set once [Start] has succeeded. *)
Record Cmd : Type := {
  Path : string;
  Args : list string;
  Process : bool
}.

Definition CommandContext (name : string) (args : list string) : Cmd :=
  {| Path := name; Args := args; Process := false |}.

Definition started (c : Cmd) : Cmd :=
  {| Path := Path c; Args := Args c; Process := true |}.
End exec.

Module user.
Record User : Type := { HomeDir : string }.
End user.

(** ** The command and the package-level variables *)

Record MountCommand : Type := {
  cmd : option exec.Cmd;
  config : Config;
  Store : option litefs.Store;
  Leaser : option litefs.Leaser;
  FileSystem : option fuse.FileSystem;
  HTTPServer : option http.Server;
  AdvertiseURLFn : option (unit -> string)
}.

Definition set_cmd (v : option exec.Cmd) (c : MountCommand) : MountCommand :=
  {| cmd := v; config := config c; Store := Store c; Leaser := Leaser c;
     FileSystem := FileSystem c; HTTPServer := HTTPServer c;
     AdvertiseURLFn := AdvertiseURLFn c |}.

Definition set_config (v : Config) (c : MountCommand) : MountCommand :=
  {| cmd := cmd c; config := v; Store := Store c; Leaser := Leaser c;
     FileSystem := FileSystem c; HTTPServer := HTTPServer c;
     AdvertiseURLFn := AdvertiseURLFn c |}.

Definition set_Store (v : option litefs.Store) (c : MountCommand) : MountCommand :=
  {| cmd := cmd c; config := config c; Store := v; Leaser := Leaser c;
     FileSystem := FileSystem c; HTTPServer := HTTPServer c;
     AdvertiseURLFn := AdvertiseURLFn c |}.

Definition set_Leaser (v : option litefs.Leaser) (c : MountCommand) : MountCommand :=
  {| cmd := cmd c; config := config c; Store := Store c; Leaser := v;
     FileSystem := FileSystem c; HTTPServer := HTTPServer c;
     AdvertiseURLFn := AdvertiseURLFn c |}.

Definition set_FileSystem (v : option fuse.FileSystem) (c : MountCommand) : MountCommand :=
  {| cmd := cmd c; config := config c; Store := Store c; Leaser := Leaser c;
     FileSystem := v; HTTPServer := HTTPServer c;
     AdvertiseURLFn := AdvertiseURLFn c |}.

Definition set_HTTPServer (v : option http.Server) (c : MountCommand) : MountCommand :=
  {| cmd := cmd c; config := config c; Store := Store c; Leaser := Leaser c;
     FileSystem := FileSystem c; HTTPServer := v;
     AdvertiseURLFn := AdvertiseURLFn c |}.

(** [NewMountCommand]; [NewConfig] is not in this file and is passed in. *)
Definition NewMountCommand (NewConfig : Config) : MountCommand :=
  {| cmd := None; config := NewConfig; Store := None; Leaser := None;
     FileSystem := None; HTTPServer := None; AdvertiseURLFn := None |}.

(** The package-level [var expvarOnce sync.Once] ([true] once [Do] has run)
    and the process-wide table of the [expvar] package. *)
Record Globals : Type := {
  expvarOnce : bool;
  expvar_vars : list (string * litefs.Store)
}.

Record State : Type := {
  this : MountCommand;
  globals : Globals
}.

(** ** What the collaborators answer *)

Record World : Type := {
  os_Hostname : string * option error;
  user_Current : option user.User;
  filepath_Join : string -> string -> string;
  filepath_Abs : string -> string * option error;
  ReadConfigFile : Config -> string -> bool -> Config * option error;
  consul_defaults : consul.Defaults;
  Leaser_Open : option error;
  Server_Listen : option error;
  Server_Port : Z;
  Server_Close : option error;
  Store_Open : option error;
  Store_Close : option error;
  FileSystem_Mount : option error;
  FileSystem_Unmount : option error;
  (** the two channels of the [select] in [Run]: is [ctx.Done()] closed, what
      [ctx.Err()] is then, has [Store.ReadyCh()] fired, and which case the
      runtime picks when both are ready *)
  ctx_Done : bool;
  ctx_Err : error;
  Store_Ready : bool;
  select_picks_ctx : bool;
  shellwords_Parse : string -> list string * option error;
  Cmd_Start : option error
}.

(** ** Trace of calls *)

Inductive Event : Type :=
| EvVersion
| EvReadConfigFile (path : string) (expandEnv : bool)
| EvNewStore (dataDir : string) (cand : bool)
| EvServerListen (a : string)
| EvOSHostname
| EvAdvertiseURLFn
| EvServerPort
| EvNewConsulLeaser (url host adv : string)
| EvLeaserOpen (l : consul.Leaser)
| EvNewStaticLeaser (p : bool) (host adv : string)
| EvStoreOpen (s : litefs.Store)
| EvExpvarPublish (name : string) (s : litefs.Store)
| EvFileSystemMount (dir : string)
| EvServerServe
| EvSelect
| EvCtxDone
| EvReady
| EvShellParse (line : string)
| EvCmdStart (c : exec.Cmd)
| EvGoWait
| EvServerClose
| EvFileSystemUnmount
| EvStoreClose
| EvCtxCancel
| EvProcessKill.

(** ** The monad *)

Inductive result (A : Type) : Type :=
| Ok (a : A)
| Err (e : error)
| Panic (msg : string)
| Blocked.

Arguments Ok {A} a.
Arguments Err {A} e.
Arguments Panic {A} msg.
Arguments Blocked {A}.

Definition M (A : Type) : Type := State -> result A * State * list Event.

Definition ret {A : Type} (a : A) : M A := fun s => (Ok a, s, []).

Definition bind {A B : Type} (m : M A) (k : A -> M B) : M B := fun s =>
  match m s with
  | (Ok a, s1, t1) => let '(r, s2, t2) := k a s1 in (r, s2, (t1 ++ t2)%list)
  | (Err e, s1, t1) => (Err e, s1, t1)
  | (Panic msg, s1, t1) => (Panic msg, s1, t1)
  | (Blocked, s1, t1) => (Blocked, s1, t1)
  end.

Declare Scope go_scope.
Delimit Scope go_scope with go.
Notation "x <- m ;; k" := (bind m (fun x => k))
  (at level 61, m at next level, right associativity) : go_scope.
Notation "m ;; k" := (bind m (fun _ => k))
  (at level 61, right associativity) : go_scope.
Local Open Scope go_scope.

Definition emit (e : Event) : M unit := fun s => (Ok tt, s, [e]).

(** [return err] with a non-nil error. *)
Definition fail {A : Type} (e : error) : M A := fun s => (Err e, s, []).

Definition panic {A : Type} (msg : string) : M A := fun s => (Panic msg, s, []).

Definition block {A : Type} : M A := fun s => (Blocked, s, []).

(** [if err != nil { return err }] *)
Definition check (r : option error) : M unit :=
  match r with
  | None => ret tt
  | Some e => fail e
  end.

(** [if err := m; err != nil { return fmt.Errorf("prefix: %w", err) }] *)
Definition wrap {A : Type} (prefix : string) (m : M A) : M A := fun s =>
  match m s with
  | (Err e, s1, t1) => (Err (ErrWrap prefix e), s1, t1)
  | r => r
  end.

Definition get_this : M MountCommand := fun s => (Ok (this s), s, []).

Definition modify_this (f : MountCommand -> MountCommand) : M unit := fun s =>
  (Ok tt, {| this := f (this s); globals := globals s |}, []).

Definition get_globals : M Globals := fun s => (Ok (globals s), s, []).

Definition put_globals (g : Globals) : M unit := fun s =>
  (Ok tt, {| this := this s; globals := g |}, []).

Definition nil_dereference : string := "invalid memory address or nil pointer dereference".

(** The three components of a run. *)
Definition result_of {A : Type} (x : result A * State * list Event) : result A :=
  fst (fst x).

Definition state_of {A : Type} (x : result A * State * list Event) : State :=
  snd (fst x).

Definition trace_of {A : Type} (x : result A * State * list Event) : list Event :=
  snd x.

(** ** The methods of [MountCommand] *)

Section Methods.

Variable W : World.

(** [Validate]: the first violated rule gives the error, [None] is [nil]. *)
Definition Validate (c : MountCommand) : option error :=
  if String.eqb (MountDir (config c)) EmptyString then
    Some (ErrNew "mount directory required")
  else if String.eqb (DataDir (config c)) EmptyString then
    Some (ErrNew "data directory required")
  else if String.eqb (MountDir (config c)) (DataDir (config c)) then
    Some (ErrNew "mount directory and data directory cannot be the same path")
  else
    match Consul (config c), Static (config c) with
    | Some _, Some _ =>
        Some (ErrNew "cannot specify both 'consul' and 'static' lease modes")
    | None, None =>
        Some (ErrNew "must specify a lease mode ('consul', 'static')")
    | _, _ => None
    end.

(** [configSearchPaths]: the home directory entry is there only when the
    current user is known and has a home directory. *)
Definition configSearchPaths : list string :=
  let a := ["litefs.yml"] in
  let a :=
    match user_Current W with
    | Some u =>
        if negb (String.eqb (user.HomeDir u) EmptyString)
        then (a ++ [filepath_Join W (user.HomeDir u) "litefs.yml"])%list
        else a
    | None => a
    end in
  (a ++ ["/etc/litefs.yml"])%list.

(** One call of [ReadConfigFile(&c.Config, path, expandEnv)]: the callee
    writes through the pointer whatever it returns. *)
Definition readConfigFile (path : string) (expandEnv : bool) : M (option error) :=
  c <- get_this ;;
  emit (EvReadConfigFile path expandEnv) ;;
  let '(cfg, err) := ReadConfigFile W (config c) path expandEnv in
  modify_this (set_config cfg) ;;
  ret err.

(** The [for _, path := range configSearchPaths()] loop of [parseConfig]
    together with the statement after it. *)
Fixpoint parseConfig_search (paths : list string) (expandEnv : bool) : M unit :=
  match paths with
  | [] => fail (ErrNew "config file not found")
  | path :: rest =>
      let '(path, err) := filepath_Abs W path in
      check err ;;
      err <- readConfigFile path expandEnv ;;
      match err with
      | None => ret tt
      | Some e =>
          if negb (os_IsNotExist e)
          then fail (ErrNew ("cannot read config file at " ++ path ++ ": "
                             ++ error_string e))
          else parseConfig_search rest expandEnv
      end
  end.

Definition parseConfig (configPath : string) (expandEnv : bool) : M unit :=
  if negb (String.eqb configPath EmptyString) then
    err <- readConfigFile configPath expandEnv ;;
    check err
  else
    parseConfig_search configSearchPaths expandEnv.

(** One guarded step of [Close]:
    [if x != nil { if e := x.Close(); err == nil { err = e } }]. *)
Definition close_step {T : Type} (x : option T) (ev : Event)
    (answer : option error) (err : option error) : M (option error) :=
  match x with
  | None => ret err
  | Some _ =>
      emit ev ;;
      ret (match err with None => answer | Some _ => err end)
  end.

(** [Close] returns its error as a value: nothing in it returns early. *)
Definition Close : M (option error) :=
  c <- get_this ;;
  err <- close_step (HTTPServer c) EvServerClose (Server_Close W) None ;;
  err <- close_step (FileSystem c) EvFileSystemUnmount (FileSystem_Unmount W) err ;;
  err <- close_step (Store c) EvStoreClose (Store_Close W) err ;;
  ret err.

Definition initStore : M unit :=
  c <- get_this ;;
  emit (EvNewStore (DataDir (config c)) (Candidate (config c))) ;;
  let s := litefs.NewStore (DataDir (config c)) (Candidate (config c)) in
  let s := litefs.set_Debug (Debug (config c)) s in
  let s := litefs.set_StrictVerify (StrictVerify (config c)) s in
  let s := litefs.set_RetentionDuration
             (RetentionConfig.Duration (Retention (config c))) s in
  let s := litefs.set_RetentionMonitorInterval
             (RetentionConfig.MonitorInterval (Retention (config c))) s in
  let s := litefs.set_Client (Some http.NewClient) s in
  modify_this (set_Store (Some s)).

Definition initHTTPServer : M unit :=
  c <- get_this ;;
  let server := http.NewServer (HTTPConfig.Addr (HTTP (config c))) in
  emit (EvServerListen (http.addr server)) ;;
  wrap "cannot open http server" (check (Server_Listen W)) ;;
  modify_this (set_HTTPServer (Some server)).

(** [c.HTTPServer.Port()] *)
Definition HTTPServer_Port : M Z :=
  c <- get_this ;;
  match HTTPServer c with
  | None => panic nil_dereference
  | Some _ => emit EvServerPort ;; ret (Server_Port W)
  end.

Definition initConsul : M unit :=
  c <- get_this ;;
  match Consul (config c) with
  | None => panic nil_dereference
  | Some cc =>
      hostname <-
        (if String.eqb (ConsulConfig.Hostname cc) EmptyString then
           emit EvOSHostname ;;
           check (snd (os_Hostname W)) ;;
           ret (fst (os_Hostname W))
         else ret (ConsulConfig.Hostname cc)) ;;
      advertiseURL <-
        match AdvertiseURLFn c with
        | Some f => emit EvAdvertiseURLFn ;; ret (f tt)
        | None => ret (ConsulConfig.AdvertiseURL cc)
        end ;;
      advertiseURL <-
        (if String.eqb advertiseURL EmptyString
            && negb (String.eqb hostname EmptyString)
         then
           port <- HTTPServer_Port ;;
           ret ("http://" ++ hostname ++ ":" ++ Itoa port)
         else ret advertiseURL) ;;
      emit (EvNewConsulLeaser (ConsulConfig.URL cc) hostname advertiseURL) ;;
      let leaser :=
        consul.NewLeaser (consul_defaults W) (ConsulConfig.URL cc)
                         hostname advertiseURL in
      let leaser :=
        if negb (String.eqb (ConsulConfig.Key cc) EmptyString)
        then consul.set_Key (ConsulConfig.Key cc) leaser else leaser in
      let leaser :=
        if 0 <? ConsulConfig.TTL cc
        then consul.set_TTL (ConsulConfig.TTL cc) leaser else leaser in
      let leaser :=
        if 0 <? ConsulConfig.LockDelay cc
        then consul.set_LockDelay (ConsulConfig.LockDelay cc) leaser
        else leaser in
      emit (EvLeaserOpen leaser) ;;
      wrap "cannot connect to consul" (check (Leaser_Open W)) ;;
      modify_this (set_Leaser (Some (litefs.OfConsul leaser)))
  end.

(** [expvar.Publish]: publishing a name twice panics. *)
Definition expvar_Publish (name : string) (v : litefs.Store) : M unit :=
  g <- get_globals ;;
  emit (EvExpvarPublish name v) ;;
  if existsb (fun kv => String.eqb (fst kv) name) (expvar_vars g)
  then panic ("Reuse of exported var name: " ++ name)
  else put_globals {| expvarOnce := expvarOnce g;
                      expvar_vars := ((name, v) :: expvar_vars g)%list |}.

(** [expvarOnce.Do(f)]: [f] runs only while the flag is unset, and the flag
    is set when [f] is over, however it ends. *)
Definition expvarOnce_Do (f : M unit) : M unit := fun s =>
  if expvarOnce (globals s) then (Ok tt, s, [])
  else
    let '(r, s1, t1) := f s in
    (r, {| this := this s1;
           globals := {| expvarOnce := true;
                         expvar_vars := expvar_vars (globals s1) |} |}, t1).

Definition openStore : M unit :=
  c <- get_this ;;
  match Store c with
  | None => panic nil_dereference
  | Some s =>
      let s := litefs.set_Leaser (Leaser c) s in
      modify_this (set_Store (Some s)) ;;
      emit (EvStoreOpen s) ;;
      check (Store_Open W) ;;
      expvarOnce_Do (expvar_Publish "store" s)
  end.

Definition initFileSystem : M unit :=
  c <- get_this ;;
  let fsys := fuse.NewFileSystem (MountDir (config c)) in
  emit (EvFileSystemMount (fuse.Path fsys)) ;;
  match FileSystem_Mount W with
  | Some e => fail (ErrNew ("cannot open file system: " ++ error_string e))
  | None =>
      match Store c with
      | None => panic nil_dereference
      | Some s =>
          modify_this (set_Store (Some (litefs.set_Invalidator (Some fsys) s))) ;;
          modify_this (set_FileSystem (Some fsys))
      end
  end.

Definition execCmd : M unit :=
  c <- get_this ;;
  if String.eqb (Exec (config c)) EmptyString then ret tt
  else
    emit (EvShellParse (Exec (config c))) ;;
    let '(args, err) := shellwords_Parse W (Exec (config c)) in
    wrap "cannot parse exec command" (check err) ;;
    match args with
    | [] => panic "index out of range [0] with length 0"
    | name :: rest =>
        let command := exec.CommandContext name rest in
        modify_this (set_cmd (Some command)) ;;
        emit (EvCmdStart command) ;;
        wrap "cannot start exec command" (check (Cmd_Start W)) ;;
        modify_this (set_cmd (Some (exec.started command))) ;;
        emit EvGoWait
    end.

(** The [select] of [Run] over [ctx.Done()] and [c.Store.ReadyCh()]: a case
    can be taken only when its channel is ready, the runtime picks when both
    are, and the statement blocks while neither is. *)
Definition waitReady : M unit :=
  emit EvSelect ;;
  match ctx_Done W, Store_Ready W with
  | true, false => emit EvCtxDone ;; fail (ctx_Err W)
  | false, true => emit EvReady
  | true, true =>
      if select_picks_ctx W then emit EvCtxDone ;; fail (ctx_Err W)
      else emit EvReady
  | false, false => block
  end.

(** The [// Instantiate leaser.] statement of [Run]. *)
Definition instantiateLeaser : M unit :=
  c <- get_this ;;
  match Consul (config c) with
  | Some _ => wrap "cannot init consul" initConsul
  | None =>
      match Static (config c) with
      | None => panic nil_dereference
      | Some sc =>
          emit (EvNewStaticLeaser (StaticConfig.Primary sc)
                  (StaticConfig.Hostname sc) (StaticConfig.AdvertiseURL sc)) ;;
          modify_this (set_Leaser (Some (litefs.OfStatic
            (litefs.NewStaticLeaser (StaticConfig.Primary sc)
               (StaticConfig.Hostname sc) (StaticConfig.AdvertiseURL sc)))))
      end
  end.

(** [c.HTTPServer.Serve()] *)
Definition HTTPServer_Serve : M unit :=
  c <- get_this ;;
  match HTTPServer c with
  | None => panic nil_dereference
  | Some _ => emit EvServerServe
  end.

Definition Run : M unit :=
  emit EvVersion ;;
  wrap "cannot init store" initStore ;;
  wrap "cannot init http server" initHTTPServer ;;
  instantiateLeaser ;;
  wrap "cannot open store" openStore ;;
  wrap "cannot init file system" initFileSystem ;;
  HTTPServer_Serve ;;
  waitReady ;;
  wrap "cannot exec" execCmd.

End Methods.

(** ** Reading traces *)

Definition is_NewLeaser (e : Event) : bool :=
  match e with
  | EvNewConsulLeaser _ _ _ | EvNewStaticLeaser _ _ _ => true
  | _ => false
  end.

Definition is_ExpvarPublish (e : Event) : bool :=
  match e with EvExpvarPublish _ _ => true | _ => false end.

Definition is_CmdStart (e : Event) : bool :=
  match e with EvCmdStart _ => true | _ => false end.

Definition is_Ready (e : Event) : bool :=
  match e with EvReady => true | _ => false end.

Definition is_StoreClose (e : Event) : bool :=
  match e with EvStoreClose => true | _ => false end.

Definition is_ProcessKill (e : Event) : bool :=
  match e with EvProcessKill => true | _ => false end.

(** The steps of startup whose order matters. *)
Definition is_startup_step (e : Event) : bool :=
  match e with
  | EvNewConsulLeaser _ _ _ | EvNewStaticLeaser _ _ _
  | EvStoreOpen _ | EvFileSystemMount _ | EvServerServe | EvSelect => true
  | _ => false
  end.

(** Number of events of a kind in a trace. *)
Definition occurrences (P : Event -> bool) (tr : list Event) : nat :=
  length (filter P tr).

(** Every [Q] event of the trace has a [P] event somewhere before it. *)
Definition each_preceded (P Q : Event -> bool) (tr : list Event) : Prop :=
  forall l1 e l2, tr = (l1 ++ e :: l2)%list -> Q e = true ->
  exists e', In e' l1 /\ P e' = true.

(** The same, decided by one pass that remembers whether [P] was [seen]. *)
Fixpoint each_preceded_from (P Q : Event -> bool) (seen : bool)
    (tr : list Event) : bool :=
  match tr with
  | [] => true
  | e :: rest =>
      (if Q e then seen else true)
      && each_preceded_from P Q (seen || P e) rest
  end.

(** The call that creates a given leaser. *)
Definition instantiation_of (l : litefs.Leaser) : Event :=
  match l with
  | litefs.OfConsul cl =>
      EvNewConsulLeaser (consul.consulURL cl) (consul.hostname cl)
                        (consul.advertiseURL cl)
  | litefs.OfStatic sl =>
      EvNewStaticLeaser (litefs.isPrimary sl) (litefs.hostname sl)
                        (litefs.advertiseURL sl)
  end.

(** ** Several [openStore] calls in one process *)

(** A process as the Go runtime starts it: the once flag is unset. *)
Definition fresh_globals (vars : list (string * litefs.Store)) : Globals :=
  {| expvarOnce := false; expvar_vars := vars |}.

(** Each call has its own receiver and its own answers from the world; the
    package-level variables are carried from one call to the next.  A panic
    ends the process. *)
Fixpoint openStore_calls (calls : list (World * MountCommand)) (g : Globals)
    : Globals * list Event :=
  match calls with
  | [] => (g, [])
  | (W, c) :: rest =>
      let '(r, s, t) := openStore W {| this := c; globals := g |} in
      match r with
      | Panic _ => (globals s, t)
      | _ =>
          let '(g', t') := openStore_calls rest (globals s) in
          (g', (t ++ t')%list)
      end
  end.

(** Does this call get as far as [expvarOnce.Do]? *)
Definition reaches_publish (call : World * MountCommand) : bool :=
  match Store (snd call), Store_Open (fst call) with
  | Some _, None => true
  | _, _ => false
  end.

Definition has_Store (call : World * MountCommand) : bool :=
  match Store (snd call) with Some _ => true | None => false end.

(** ** Shutdown *)

(** What the caller of the command can do to shut it down: cancel the context
    it gave to [Run], and call [Close].  The caller is not part of
    [mount.go]; a shutdown is any sequence of these steps. *)
Inductive ShutdownStep : Type :=
| CancelContext
| CallClose.

Record Runtime : Type := {
  state : State;
  ctx_cancelled : bool;
  child_running : bool
}.

(** The subprocess of [execCmd] runs once [Start] has succeeded. *)
Definition child_started (c : MountCommand) : bool :=
  match cmd c with
  | Some k => exec.Process k
  | None => false
  end.

Definition runtime_after (s : State) : Runtime :=
  {| state := s; ctx_cancelled := false;
     child_running := child_started (this s) |}.

(** One step of a shutdown.  A command made by [exec.CommandContext] is
    killed by os/exec when its context becomes done before the command has
    completed; [Close] is the method above, and the only thing it does. *)
Definition shutdown_step (W : World) (a : ShutdownStep) (r : Runtime)
    : Runtime * list Event :=
  match a with
  | CancelContext =>
      if ctx_cancelled r then (r, [])
      else
        ({| state := state r; ctx_cancelled := true; child_running := false |},
         EvCtxCancel :: (if child_running r then [EvProcessKill] else []))
  | CallClose =>
      let '(_, s, t) := Close W (state r) in
      ({| state := s; ctx_cancelled := ctx_cancelled r;
          child_running := child_running r |}, t)
  end.

Fixpoint shutdown (W : World) (steps : list ShutdownStep) (r : Runtime)
    : Runtime * list Event :=
  match steps with
  | [] => (r, [])
  | a :: rest =>
      let '(r1, t1) := shutdown_step W a r in
      let '(r2, t2) := shutdown W rest r1 in
      (r2, (t1 ++ t2)%list)
  end.

Definition is_CancelContext (a : ShutdownStep) : bool :=
  match a with CancelContext => true | CallClose => false end.

(** ** Sample configurations and worlds *)

Definition sample_static : StaticConfig.t :=
  {| StaticConfig.Primary := true;
     StaticConfig.Hostname := "node1";
     StaticConfig.AdvertiseURL := "http://node1:20202" |}.

Definition sample_consul : ConsulConfig.t :=
  {| ConsulConfig.URL := "http://consul:8500";
     ConsulConfig.Hostname := EmptyString;
     ConsulConfig.AdvertiseURL := EmptyString;
     ConsulConfig.Key := "litefs/app";
     ConsulConfig.TTL := 0;
     ConsulConfig.LockDelay := 5000000000 |}.

Definition sample_config (cc : option ConsulConfig.t)
    (sc : option StaticConfig.t) (line : string) : Config :=
  {| MountDir := "/litefs"; DataDir := "/var/lib/litefs"; Exec := line;
     Candidate := true; Debug := false; StrictVerify := true;
     Retention := {| RetentionConfig.Duration := 60000000000;
                     RetentionConfig.MonitorInterval := 1000000000 |};
     HTTP := {| HTTPConfig.Addr := ":20202" |};
     Consul := cc; Static := sc |}.

Definition static_command (line : string) : MountCommand :=
  NewMountCommand (sample_config None (Some sample_static) line).

Definition consul_command (line : string) : MountCommand :=
  NewMountCommand (sample_config (Some sample_consul) None line).

Definition start_state (c : MountCommand) : State :=
  {| this := c; globals := fresh_globals [] |}.

Definition no_such_file : error := ErrExt "no such file or directory" true.

Definition permission_denied : error := ErrExt "permission denied" false.

Definition address_in_use : error := ErrExt "address already in use" false.

(** What reading the file at [p] answers, from a table of the files there
    are: a path that is not in the table does not exist. *)
Fixpoint read_answer (files : list (string * option error)) (p : string)
    : option (option error) :=
  match files with
  | [] => None
  | (q, a) :: rest => if String.eqb p q then Some a else read_answer rest p
  end.

(** A world in which the named calls answer as given and every other call
    succeeds; the config files are those of [files]. *)
Definition sample_world (files : list (string * option error))
    (listen open_ : option error) (done ready : bool) : World :=
  {| os_Hostname := ("node1", None);
     user_Current := Some {| user.HomeDir := "/root" |};
     filepath_Join := fun d f => d ++ "/" ++ f;
     filepath_Abs := fun p =>
       (if String.prefix "/" p then p else "/work/" ++ p, None);
     ReadConfigFile := fun cfg p _ =>
       match read_answer files p with
       | Some None => (sample_config None (Some sample_static) "app", None)
       | Some (Some e) => (cfg, Some e)
       | None => (cfg, Some no_such_file)
       end;
     consul_defaults := {| consul.DefaultKey := "litefs/primary";
                           consul.DefaultTTL := 10000000000;
                           consul.DefaultLockDelay := 1000000000 |};
     Leaser_Open := None;
     Server_Listen := listen;
     Server_Port := 20202;
     Server_Close := None;
     Store_Open := open_;
     Store_Close := None;
     FileSystem_Mount := None;
     FileSystem_Unmount := None;
     ctx_Done := done;
     ctx_Err := ErrCanceled;
     Store_Ready := ready;
     select_picks_ctx := false;
     shellwords_Parse := fun s => ([s], None);
     Cmd_Start := None |}.

Definition good_world : World := sample_world [] None None false true.

(** ** Reading [Close] *)

(** What a component answers when [Close] reaches it: [nil] components are
    skipped and answer nothing. *)
Definition answer_of {T : Type} (x : option T) (answer : option error)
    : option error :=
  match x with
  | Some _ => answer
  | None => None
  end.

(** The call made on a component, if it is there. *)
Definition call_on {T : Type} (x : option T) (ev : Event) : list Event :=
  match x with
  | Some _ => [ev]
  | None => []
  end.

(** The first non-nil error of a list of answers. *)
Fixpoint first_error (answers : list (option error)) : option error :=
  match answers with
  | [] => None
  | Some e :: _ => Some e
  | None :: rest => first_error rest
  end.

(** ** Reading [parseConfig] *)

(** The absolute form [parseConfig] reads a search path at. *)
Definition abs_of (W : World) (path : string) : string :=
  fst (filepath_Abs W path).

(** A search path is missing: it can be made absolute, and reading it fails
    with an error for which [os.IsNotExist] holds. *)
Definition missing (W : World) (expandEnv : bool) (path : string) : Prop :=
  snd (filepath_Abs W path) = None /\
  forall cfg, exists e,
    snd (ReadConfigFile W cfg (abs_of W path) expandEnv) = Some e /\
    os_IsNotExist e = true.

(** The reads made when the given search paths are tried one after another. *)
Definition reads_of (W : World) (expandEnv : bool) (paths : list string)
    : list Event :=
  map (fun p => EvReadConfigFile (abs_of W p) expandEnv) paths.

(** ** Reading [initConsul] *)

(** The hostname [initConsul] works with once the lookup has succeeded. *)
Definition hostname_used (W : World) (cc : ConsulConfig.t) : string :=
  if String.eqb (ConsulConfig.Hostname cc) EmptyString
  then fst (os_Hostname W)
  else ConsulConfig.Hostname cc.

(** The advertise URL before the default is considered. *)
Definition advertiseURL_given (c : MountCommand) (cc : ConsulConfig.t) : string :=
  match AdvertiseURLFn c with
  | Some f => f tt
  | None => ConsulConfig.AdvertiseURL cc
  end.

Definition default_advertiseURL (host : string) (port : Z) : string :=
  "http://" ++ host ++ ":" ++ Itoa port.

Definition takes_default (given host : string) : bool :=
  String.eqb given EmptyString && negb (String.eqb host EmptyString).

Definition advertiseURL_used (W : World) (c : MountCommand)
    (cc : ConsulConfig.t) : string :=
  if takes_default (advertiseURL_given c cc) (hostname_used W cc)
  then default_advertiseURL (hostname_used W cc) (Server_Port W)
  else advertiseURL_given c cc.

(** The leaser as it is when [Open] is called on it. *)
Definition leaser_opened (W : World) (c : MountCommand) (cc : ConsulConfig.t)
    : consul.Leaser :=
  {| consul.consulURL := ConsulConfig.URL cc;
     consul.hostname := hostname_used W cc;
     consul.advertiseURL := advertiseURL_used W c cc;
     consul.Key :=
       if String.eqb (ConsulConfig.Key cc) EmptyString
       then consul.DefaultKey (consul_defaults W) else ConsulConfig.Key cc;
     consul.TTL :=
       if 0 <? ConsulConfig.TTL cc
       then ConsulConfig.TTL cc else consul.DefaultTTL (consul_defaults W);
     consul.LockDelay :=
       if 0 <? ConsulConfig.LockDelay cc
       then ConsulConfig.LockDelay cc
       else consul.DefaultLockDelay (consul_defaults W) |}.

(** The calls [initConsul] makes before it creates the leaser. *)
Definition initConsul_lookups (W : World) (c : MountCommand)
    (cc : ConsulConfig.t) : list Event :=
  ((if String.eqb (ConsulConfig.Hostname cc) EmptyString
    then [EvOSHostname] else [])
   ++ (match AdvertiseURLFn c with Some _ => [EvAdvertiseURLFn] | None => [] end)
   ++ (if takes_default (advertiseURL_given c cc) (hostname_used W cc)
       then [EvServerPort] else []))%list.

(** The state [Run] is in when it reaches the leaser: the Store is created
    and the HTTP server listens. *)
Definition listening_state (c : MountCommand) : State :=
  state_of (initHTTPServer good_world (state_of (initStore (start_state c)))).

(** The same world with another answer of [os.Hostname]. *)
Definition with_os_Hostname (v : string * option error) (w : World) : World :=
  {| os_Hostname := v;
     user_Current := user_Current w;
     filepath_Join := filepath_Join w;
     filepath_Abs := filepath_Abs w;
     ReadConfigFile := ReadConfigFile w;
     consul_defaults := consul_defaults w;
     Leaser_Open := Leaser_Open w;
     Server_Listen := Server_Listen w;
     Server_Port := Server_Port w;
     Server_Close := Server_Close w;
     Store_Open := Store_Open w;
     Store_Close := Store_Close w;
     FileSystem_Mount := FileSystem_Mount w;
     FileSystem_Unmount := FileSystem_Unmount w;
     ctx_Done := ctx_Done w;
     ctx_Err := ctx_Err w;
     Store_Ready := Store_Ready w;
     select_picks_ctx := select_picks_ctx w;
     shellwords_Parse := shellwords_Parse w;
     Cmd_Start := Cmd_Start w |}.

Definition lookup_failed : error := ErrExt "hostname lookup failed" false.

Definition nameless_world : World :=
  with_os_Hostname (EmptyString, Some lookup_failed) good_world.

(** ** Reading [Run] *)

(** What [Run] does once the leaser is in place. *)
Definition Run_after_leaser (W : World) : M unit :=
  wrap "cannot open store" (openStore W) ;;
  wrap "cannot init file system" (initFileSystem W) ;;
  HTTPServer_Serve ;;
  waitReady W ;;
  wrap "cannot exec" (execCmd W).

(** A computation whose every event, from every state, is of kind [P]. *)
Definition emits_only {A : Type} (P : Event -> bool) (m : M A) : Prop :=
  forall s, forallb P (trace_of (m s)) = true.

Definition is_leaser_step (e : Event) : bool :=
  match e with
  | EvNewConsulLeaser _ _ _ | EvNewStaticLeaser _ _ _ | EvLeaserOpen _ => true
  | _ => false
  end.

Definition not_leaser_step (e : Event) : bool := negb (is_leaser_step e).

Definition not_CmdStart (e : Event) : bool := negb (is_CmdStart e).

Definition not_startup_step (e : Event) : bool := negb (is_startup_step e).

(** What [Run] does before it waits, and from the wait on. *)
Definition Run_before_wait (W : World) : M unit :=
  emit EvVersion ;;
  wrap "cannot init store" initStore ;;
  wrap "cannot init http server" (initHTTPServer W) ;;
  instantiateLeaser W ;;
  wrap "cannot open store" (openStore W) ;;
  wrap "cannot init file system" (initFileSystem W) ;;
  HTTPServer_Serve.

Definition Run_from_wait (W : World) : M unit :=
  waitReady W ;;
  wrap "cannot exec" (execCmd W).

Definition is_Select (e : Event) : bool :=
  match e with EvSelect => true | _ => false end.

(** The events there can be before the wait. *)
Definition before_wait (e : Event) : bool :=
  negb (is_CmdStart e) && negb (is_Select e).

(** The context is cancelled while the Store is not ready. *)
Definition cancelled_world : World := sample_world [] None None true false.

(** The state in which [Run] instantiates the leaser, the HTTP server
    listening. *)
Definition state_at_leaser (s : State) : State :=
  {| this := set_HTTPServer
               (Some (http.NewServer (HTTPConfig.Addr (HTTP (config (this s))))))
               (this (state_of (initStore s)));
     globals := globals s |}.

(** The address of the HTTP server is taken. *)
Definition busy_world : World :=
  sample_world [] (Some address_in_use) None false true.

(** The same, with the context cancelled and the Store never ready. *)
Definition busy_cancelled_world : World :=
  sample_world [] (Some address_in_use) None true false.

(** The publication a call makes when it makes one. *)
Definition published_by (call : World * MountCommand) : list Event :=
  match Store (snd call) with
  | Some st0 =>
      [EvExpvarPublish "store" (litefs.set_Leaser (Leaser (snd call)) st0)]
  | None => []
  end.

(** The publications of a trace. *)
Definition publications (tr : list Event) : list Event :=
  filter is_ExpvarPublish tr.

(** Two commands of their own, each with a Store, and a world in which the
    Store cannot be opened. *)
Definition first_command : MountCommand :=
  this (state_of (initStore (start_state (static_command "app")))).

Definition second_command : MountCommand :=
  this (state_of (initStore (start_state (consul_command "db")))).

Definition unopenable_world : World :=
  sample_world [] None (Some permission_denied) false true.

(** The command after a run that has started the subcommand. *)
Definition running_app : Runtime :=
  runtime_after (state_of (Run good_world (start_state (static_command "app")))).

(** ** More sample worlds *)

(** The same world with another answer of [shellwords.Parse]. *)
Definition with_shellwords_Parse (v : string -> list string * option error)
    (w : World) : World :=
  {| os_Hostname := os_Hostname w;
     user_Current := user_Current w;
     filepath_Join := filepath_Join w;
     filepath_Abs := filepath_Abs w;
     ReadConfigFile := ReadConfigFile w;
     consul_defaults := consul_defaults w;
     Leaser_Open := Leaser_Open w;
     Server_Listen := Server_Listen w;
     Server_Port := Server_Port w;
     Server_Close := Server_Close w;
     Store_Open := Store_Open w;
     Store_Close := Store_Close w;
     FileSystem_Mount := FileSystem_Mount w;
     FileSystem_Unmount := FileSystem_Unmount w;
     ctx_Done := ctx_Done w;
     ctx_Err := ctx_Err w;
     Store_Ready := Store_Ready w;
     select_picks_ctx := select_picks_ctx w;
     shellwords_Parse := v;
     Cmd_Start := Cmd_Start w |}.

(** The same world with another answer of [FileSystem.Mount]. *)
Definition with_FileSystem_Mount (v : option error) (w : World) : World :=
  {| os_Hostname := os_Hostname w;
     user_Current := user_Current w;
     filepath_Join := filepath_Join w;
     filepath_Abs := filepath_Abs w;
     ReadConfigFile := ReadConfigFile w;
     consul_defaults := consul_defaults w;
     Leaser_Open := Leaser_Open w;
     Server_Listen := Server_Listen w;
     Server_Port := Server_Port w;
     Server_Close := Server_Close w;
     Store_Open := Store_Open w;
     Store_Close := Store_Close w;
     FileSystem_Mount := v;
     FileSystem_Unmount := FileSystem_Unmount w;
     ctx_Done := ctx_Done w;
     ctx_Err := ctx_Err w;
     Store_Ready := Store_Ready w;
     select_picks_ctx := select_picks_ctx w;
     shellwords_Parse := shellwords_Parse w;
     Cmd_Start := Cmd_Start w |}.

(** An exec line of blanks parses to no word at all. *)
Definition wordless_world : World :=
  with_shellwords_Parse (fun _ => ([], None)) good_world.

(** The mount point cannot be mounted. *)
Definition unmountable_world : World :=
  with_FileSystem_Mount (Some permission_denied) good_world.

(** A command whose configuration names no lease mode, and one that names
    both. *)
Definition modeless_command : MountCommand :=
  NewMountCommand (sample_config None None "app").

Definition two_mode_command : MountCommand :=
  NewMountCommand (sample_config (Some sample_consul) (Some sample_static) "app").

(** Is this event the call of [FileSystem.Mount]? *)
Definition is_FileSystemMount (e : Event) : bool :=
  match e with EvFileSystemMount _ => true | _ => false end.

Definition is_StoreOpen (e : Event) : bool :=
  match e with EvStoreOpen _ => true | _ => false end.

Definition is_ServerServe (e : Event) : bool :=
  match e with EvServerServe => true | _ => false end.

Definition is_ServerListen (e : Event) : bool :=
  match e with EvServerListen _ => true | _ => false end.

Definition is_GoWait (e : Event) : bool :=
  match e with EvGoWait => true | _ => false end.

(** Did a call succeed? *)
Definition succeeded (r : option error) : bool :=
  match r with
  | None => true
  | Some _ => false
  end.

Definition not_FileSystemMount (e : Event) : bool := negb (is_FileSystemMount e).

(** The events of the subcommand. *)
Definition is_exec_step (e : Event) : bool :=
  match e with
  | EvShellParse _ | EvCmdStart _ | EvGoWait => true
  | _ => false
  end.

Definition not_exec_step (e : Event) : bool := negb (is_exec_step e).

(** In every trace of [m], each [Q] event comes after some [P] event. *)
Definition guarded {A : Type} (P Q : Event -> bool) (m : M A) : Prop :=
  forall s, each_preceded_from P Q false (trace_of (m s)) = true.

(** ** Results of several [openStore] calls *)

(** What each call of a sequence returns; as in [openStore_calls], a panic
    ends the process. *)
Fixpoint openStore_results (calls : list (World * MountCommand)) (g : Globals)
    : list (result unit) :=
  match calls with
  | [] => []
  | (W, c) :: rest =>
      let '(r, s, _) := openStore W {| this := c; globals := g |} in
      r :: match r with
           | Panic _ => []
           | _ => openStore_results rest (globals s)
           end
  end.

(** The name [store] is not in the table of [expvar]. *)
Definition store_unpublished (g : Globals) : bool :=
  negb (existsb (fun kv => String.eqb (fst kv) "store") (expvar_vars g)).

(** The package-level variables agree: while [expvarOnce] is unset, nothing
    has published [store]. *)
Definition once_agrees (g : Globals) : Prop :=
  expvarOnce g = false -> store_unpublished g = true.

(** What [Store.Open] answers to a call, as a result of [openStore]. *)
Definition open_answer (call : World * MountCommand) : result unit :=
  match Store_Open (fst call) with
  | None => Ok tt
  | Some e => Err e
  end.

(** ** The command line *)

(** What [flag.FlagSet.Parse] leaves after it has gone through the
    arguments: the values of the two flags of [ParseFlags], the number of
    arguments that are no flags, and the error of the parse. *)
Record FlagSet : Type := {
  configPath : string;
  noExpandEnv : bool;
  NArg : nat;
  parse_error : option error
}.

(** [splitArgs] is defined outside [mount.go] and is a parameter here: it
    answers the arguments before the double dash and those after it, [None]
    being the nil slice.  [flag_Parse] is the [flag] package. *)
Record CommandLine : Type := {
  splitArgs : list string -> list string * option (list string);
  flag_Parse : list string -> FlagSet
}.

Definition set_Exec (v : string) (cfg : Config) : Config :=
  {| MountDir := MountDir cfg; DataDir := DataDir cfg; Exec := v;
     Candidate := Candidate cfg; Debug := Debug cfg;
     StrictVerify := StrictVerify cfg; Retention := Retention cfg;
     HTTP := HTTP cfg; Consul := Consul cfg; Static := Static cfg |}.

(** [strings.Join(elems, sep)] *)
Definition strings_Join (elems : list string) (sep : string) : string :=
  String.concat sep elems.

(** [ParseFlags]; the usage text it installs is not traced. *)
Definition ParseFlags (CL : CommandLine) (W : World) (args : list string)
    : M unit :=
  let '(args0, args1) := splitArgs CL args in
  let fs := flag_Parse CL args0 in
  check (parse_error fs) ;;
  (if (0 <? NArg fs)%nat
   then fail (ErrNew
     "too many arguments, specify a '--' to specify an exec command")
   else ret tt) ;;
  parseConfig W (configPath fs) (negb (noExpandEnv fs)) ;;
  match args1 with
  | Some l =>
      modify_this (fun c => set_config (set_Exec (strings_Join l " ") (config c)) c)
  | None => ret tt
  end.

(** A command line [litefs mount -config /etc/litefs.yml -- <words>]: the
    split is at the first double dash, and the flags are found as given. *)
Fixpoint split_at_dash (args : list string)
    : list string * option (list string) :=
  match args with
  | [] => ([], None)
  | a :: rest =>
      if String.eqb a "--" then ([], Some rest)
      else let '(before, after) := split_at_dash rest in (a :: before, after)
  end.

Definition sample_command_line (stray : nat) : CommandLine :=
  {| splitArgs := split_at_dash;
     flag_Parse := fun _ =>
       {| configPath := "/etc/litefs.yml"; noExpandEnv := false;
          NArg := stray; parse_error := None |} |}.

Definition config_world : World :=
  sample_world [("/etc/litefs.yml", None)] None None false true.





(** ** When [Run] succeeds *)

(** The leaser statement goes through: in consul mode the hostname is given
    or found and the leaser opens; otherwise a static section is there. *)
Definition leaser_goes_through (W : World) (cfg : Config) : bool :=
  match Consul cfg with
  | Some cc =>
      (negb (String.eqb (ConsulConfig.Hostname cc) EmptyString)
       || succeeded (snd (os_Hostname W)))
      && succeeded (Leaser_Open W)
  | None =>
      match Static cfg with
      | Some _ => true
      | None => false
      end
  end.

(** The exec line goes through: there is none, or it parses to at least one
    word and the program starts. *)
Definition exec_goes_through (W : World) (cfg : Config) : bool :=
  String.eqb (Exec cfg) EmptyString
  || match shellwords_Parse W (Exec cfg) with
     | (_ :: _, None) => succeeded (Cmd_Start W)
     | _ => false
     end.

(** The wait ends with the readiness signal. *)
Definition wait_ends_ready (W : World) : bool :=
  Store_Ready W && negb (ctx_Done W && select_picks_ctx W).

(** Every call on the way of [Run] answers well. *)
Definition all_goes_through (W : World) (s : State) : bool :=
  succeeded (Server_Listen W)
  && leaser_goes_through W (config (this s))
  && succeeded (Store_Open W)
  && (expvarOnce (globals s) || store_unpublished (globals s))
  && succeeded (FileSystem_Mount W)
  && wait_ends_ready W
  && exec_goes_through W (config (this s)).

(** * Properties *)

(** ** Validation *)

(** C1. [Validate] returns an error exactly when the mount directory is
    empty, the data directory is empty, the two directories are equal, both
    lease modes are given, or none is; on every other configuration it
    returns [nil]. *)
Theorem Validate_fails_iff_malformed (c : MountCommand) :
  (exists e, Validate c = Some e) <->
  (MountDir (config c) = EmptyString
   \/ DataDir (config c) = EmptyString
   \/ MountDir (config c) = DataDir (config c)
   \/ (Consul (config c) <> None /\ Static (config c) <> None)
   \/ (Consul (config c) = None /\ Static (config c) = None)).
Proof.
  unfold Validate.
  destruct (String.eqb_spec (MountDir (config c)) EmptyString) as [Hm | Hm].
  { split; eauto. }
  destruct (String.eqb_spec (DataDir (config c)) EmptyString) as [Hd | Hd].
  { split; eauto. }
  destruct (String.eqb_spec (MountDir (config c)) (DataDir (config c)))
    as [He | He].
  { split; eauto. }
  destruct (Consul (config c)) as [cc |], (Static (config c)) as [sc |].
  - split; [intros _ | eauto].
    right; right; right; left; split; discriminate.
  - split; [intros [e H]; discriminate |].
    intros [H | [H | [H | [[_ H] | [H _]]]]]; congruence.
  - split; [intros [e H]; discriminate |].
    intros [H | [H | [H | [[H _] | [_ H]]]]]; congruence.
  - split; [intros _ | eauto].
    right; right; right; right; split; reflexivity.
Qed.

(** ** Close *)

(** [Close], written out. *)
Lemma Close_run (W : World) (s : State) :
  Close W s =
  (Ok (first_error [answer_of (HTTPServer (this s)) (Server_Close W);
                    answer_of (FileSystem (this s)) (FileSystem_Unmount W);
                    answer_of (Store (this s)) (Store_Close W)]),
   s,
   (call_on (HTTPServer (this s)) EvServerClose
    ++ call_on (FileSystem (this s)) EvFileSystemUnmount
    ++ call_on (Store (this s)) EvStoreClose)%list).
Proof.
  unfold Close, bind, get_this, close_step.
  destruct (HTTPServer (this s)), (FileSystem (this s)), (Store (this s));
    cbn;
    destruct (Server_Close W), (FileSystem_Unmount W), (Store_Close W);
    reflexivity.
Qed.

(** C9. [Close] calls HTTP server close, file system unmount and Store close
    in this order, each one whenever its component is not [nil] and whatever
    the earlier ones answered; it returns the first non-nil error among the
    answers, hence [nil] when every call succeeds or no component is there,
    and it leaves the command as it was. *)
Theorem Close_attempts_all_in_order (W : World) (s : State) :
  trace_of (Close W s)
    = (call_on (HTTPServer (this s)) EvServerClose
       ++ call_on (FileSystem (this s)) EvFileSystemUnmount
       ++ call_on (Store (this s)) EvStoreClose)%list /\
  result_of (Close W s)
    = Ok (first_error
            [answer_of (HTTPServer (this s)) (Server_Close W);
             answer_of (FileSystem (this s)) (FileSystem_Unmount W);
             answer_of (Store (this s)) (Store_Close W)]) /\
  state_of (Close W s) = s.
Proof.
  rewrite Close_run. repeat split.
Qed.

(** ** Configuration file search *)

(** One turn of the search loop, written out. *)
Lemma parseConfig_search_cons (W : World) (expandEnv : bool) (p : string)
    (rest : list string) (s : State) :
  parseConfig_search W (p :: rest) expandEnv s =
  match filepath_Abs W p with
  | (_, Some e) => (Err e, s, [])
  | (q, None) =>
      let read := ReadConfigFile W (config (this s)) q expandEnv in
      let s1 := {| this := set_config (fst read) (this s);
                   globals := globals s |} in
      match snd read with
      | None => (Ok tt, s1, [EvReadConfigFile q expandEnv])
      | Some e =>
          if os_IsNotExist e then
            let '(r, s2, t) := parseConfig_search W rest expandEnv s1 in
            (r, s2, EvReadConfigFile q expandEnv :: t)
          else
            (Err (ErrNew ("cannot read config file at " ++ q ++ ": "
                          ++ error_string e)), s1,
             [EvReadConfigFile q expandEnv])
      end
  end.
Proof.
  cbn [parseConfig_search].
  destruct (filepath_Abs W p) as [q [e |]]; [reflexivity |].
  unfold bind, check, ret, readConfigFile, get_this, emit. cbn.
  destruct (ReadConfigFile W (config (this s)) q expandEnv) as [cfg [e |]];
    cbn; [| reflexivity].
  destruct (os_IsNotExist e); cbn; [| reflexivity].
  destruct (parseConfig_search W rest expandEnv _) as [[r s2] t].
  reflexivity.
Qed.

Lemma parseConfig_search_skips_missing (W : World) (expandEnv : bool)
    (pre rest : list string) :
  Forall (missing W expandEnv) pre ->
  forall s, exists s',
    globals s' = globals s /\
    result_of (parseConfig_search W (pre ++ rest)%list expandEnv s)
      = result_of (parseConfig_search W rest expandEnv s') /\
    trace_of (parseConfig_search W (pre ++ rest)%list expandEnv s)
      = (reads_of W expandEnv pre
         ++ trace_of (parseConfig_search W rest expandEnv s'))%list.
Proof.
  induction 1 as [| p pre [Habs Hread] _ IH]; intros s.
  - exists s. repeat split.
  - specialize (Hread (config (this s))). destruct Hread as (e & He & Hne).
    cbn [app]. rewrite parseConfig_search_cons.
    unfold abs_of in *.
    destruct (filepath_Abs W p) as [q aerr] eqn:Eabs. cbn in Habs, He |- *.
    subst aerr. rewrite He, Hne.
    match goal with
    | |- context [parseConfig_search W (pre ++ rest)%list expandEnv ?s1] =>
        destruct (IH s1) as (s' & Hg & Hr & Ht);
        destruct (parseConfig_search W (pre ++ rest)%list expandEnv s1)
          as [[r s2] t]
    end.
    exists s'. unfold result_of, trace_of, reads_of, abs_of in *.
    cbn in *. rewrite Eabs.
    repeat split; [exact Hg | exact Hr | now rewrite Ht].
Qed.

Lemma configSearchPaths_shape (W : World) :
  exists home,
    configSearchPaths W = ("litefs.yml" :: home ++ ["/etc/litefs.yml"])%list /\
    ((exists u, user_Current W = Some u /\ user.HomeDir u <> EmptyString /\
                home = [filepath_Join W (user.HomeDir u) "litefs.yml"])
     \/ (home = [] /\
         (user_Current W = None
          \/ exists u, user_Current W = Some u /\
                       user.HomeDir u = EmptyString))).
Proof.
  unfold configSearchPaths.
  destruct (user_Current W) as [u |].
  - destruct (String.eqb_spec (user.HomeDir u) EmptyString) as [He | He]; cbn.
    + exists []. split; [reflexivity |]. right. eauto.
    + exists [filepath_Join W (user.HomeDir u) "litefs.yml"].
      split; [reflexivity |]. left. eauto.
  - exists []. split; [reflexivity |]. right. eauto.
Qed.

(** C10. With an explicit config path, [parseConfig] reads that path only
    and returns whatever error the read gives, a missing file included.
    Without one it goes through the search paths in order: [litefs.yml],
    then the home directory's [litefs.yml] when the current user has a home
    directory, then [/etc/litefs.yml]; missing paths are skipped, the first
    path that is not missing ends the search, with success or with the read
    error, and nothing after it is read; when every path is missing the
    result is the error [config file not found]. *)
Theorem parseConfig_search_order (W : World) (expandEnv : bool) (s : State) :
  (forall configPath, configPath <> EmptyString ->
     result_of (parseConfig W configPath expandEnv s)
       = match snd (ReadConfigFile W (config (this s)) configPath expandEnv)
         with
         | None => Ok tt
         | Some e => Err e
         end /\
     trace_of (parseConfig W configPath expandEnv s)
       = [EvReadConfigFile configPath expandEnv]) /\
  (exists home,
     configSearchPaths W = ("litefs.yml" :: home ++ ["/etc/litefs.yml"])%list /\
     ((exists u, user_Current W = Some u /\ user.HomeDir u <> EmptyString /\
                 home = [filepath_Join W (user.HomeDir u) "litefs.yml"])
      \/ (home = [] /\
          (user_Current W = None
           \/ exists u, user_Current W = Some u /\
                        user.HomeDir u = EmptyString)))) /\
  (Forall (missing W expandEnv) (configSearchPaths W) ->
     result_of (parseConfig W EmptyString expandEnv s)
       = Err (ErrNew "config file not found") /\
     trace_of (parseConfig W EmptyString expandEnv s)
       = reads_of W expandEnv (configSearchPaths W)) /\
  (forall pre p post,
     configSearchPaths W = (pre ++ p :: post)%list ->
     Forall (missing W expandEnv) pre ->
     snd (filepath_Abs W p) = None ->
     (forall cfg, snd (ReadConfigFile W cfg (abs_of W p) expandEnv) = None) ->
     result_of (parseConfig W EmptyString expandEnv s) = Ok tt /\
     trace_of (parseConfig W EmptyString expandEnv s)
       = reads_of W expandEnv (pre ++ [p])%list) /\
  (forall pre p post e,
     configSearchPaths W = (pre ++ p :: post)%list ->
     Forall (missing W expandEnv) pre ->
     snd (filepath_Abs W p) = None ->
     (forall cfg, snd (ReadConfigFile W cfg (abs_of W p) expandEnv) = Some e) ->
     os_IsNotExist e = false ->
     result_of (parseConfig W EmptyString expandEnv s)
       = Err (ErrNew ("cannot read config file at " ++ abs_of W p ++ ": "
                      ++ error_string e)) /\
     trace_of (parseConfig W EmptyString expandEnv s)
       = reads_of W expandEnv (pre ++ [p])%list).
Proof.
  split; [| split; [| split; [| split]]].
  - intros configPath Hne.
    unfold parseConfig.
    destruct (String.eqb_spec configPath EmptyString) as [He | _];
      [contradiction |].
    unfold bind, readConfigFile, bind, get_this, emit, result_of, trace_of.
    cbn.
    destruct (ReadConfigFile W (config (this s)) configPath expandEnv)
      as [cfg [e |]]; cbn; split; reflexivity.
  - apply configSearchPaths_shape.
  - intros Hall. unfold parseConfig. cbn [String.eqb negb].
    destruct (parseConfig_search_skips_missing W expandEnv
                (configSearchPaths W) [] Hall s) as (s' & _ & Hr & Ht).
    rewrite app_nil_r in Hr, Ht. rewrite Hr, Ht.
    cbn. rewrite app_nil_r. split; reflexivity.
  - intros pre p post Hpaths Hpre Habs Hread.
    unfold parseConfig. cbn [String.eqb negb]. rewrite Hpaths.
    destruct (parseConfig_search_skips_missing W expandEnv
                pre (p :: post) Hpre s) as (s' & _ & Hr & Ht).
    rewrite Hr, Ht, parseConfig_search_cons.
    unfold abs_of in *.
    unfold reads_of. rewrite map_app. cbn [map]. unfold abs_of.
    destruct (filepath_Abs W p) as [q aerr]. cbn in Habs, Hread |- *.
    subst aerr. rewrite Hread. split; reflexivity.
  - intros pre p post e Hpaths Hpre Habs Hread Hne.
    unfold parseConfig. cbn [String.eqb negb]. rewrite Hpaths.
    destruct (parseConfig_search_skips_missing W expandEnv
                pre (p :: post) Hpre s) as (s' & _ & Hr & Ht).
    rewrite Hr, Ht, parseConfig_search_cons.
    unfold reads_of. rewrite map_app. cbn [map]. unfold abs_of in *.
    destruct (filepath_Abs W p) as [q aerr]. cbn in Habs, Hread |- *.
    subst aerr. rewrite Hread, Hne. split; reflexivity.
Qed.

Lemma parseConfig_search_order_witness :
  (result_of (parseConfig (sample_world [] None None false true)
                "/srv/litefs.yml" true (start_state (static_command "app")))
     = Err no_such_file /\
   trace_of (parseConfig (sample_world [] None None false true)
                "/srv/litefs.yml" true (start_state (static_command "app")))
     = [EvReadConfigFile "/srv/litefs.yml" true]) /\
  (result_of (parseConfig (sample_world [] None None false true)
                EmptyString true (start_state (static_command "app")))
     = Err (ErrNew "config file not found") /\
   trace_of (parseConfig (sample_world [] None None false true)
                EmptyString true (start_state (static_command "app")))
     = [EvReadConfigFile "/work/litefs.yml" true;
        EvReadConfigFile "/root/litefs.yml" true;
        EvReadConfigFile "/etc/litefs.yml" true]) /\
  (result_of (parseConfig
                (sample_world [("/etc/litefs.yml", None)] None None false true)
                EmptyString true (start_state (static_command "app")))
     = Ok tt /\
   trace_of (parseConfig
                (sample_world [("/etc/litefs.yml", None)] None None false true)
                EmptyString true (start_state (static_command "app")))
     = [EvReadConfigFile "/work/litefs.yml" true;
        EvReadConfigFile "/root/litefs.yml" true;
        EvReadConfigFile "/etc/litefs.yml" true]) /\
  (result_of (parseConfig
                (sample_world [("/root/litefs.yml", Some permission_denied)]
                   None None false true)
                EmptyString true (start_state (static_command "app")))
     = Err (ErrNew
         "cannot read config file at /root/litefs.yml: permission denied") /\
   trace_of (parseConfig
                (sample_world [("/root/litefs.yml", Some permission_denied)]
                   None None false true)
                EmptyString true (start_state (static_command "app")))
     = [EvReadConfigFile "/work/litefs.yml" true;
        EvReadConfigFile "/root/litefs.yml" true]).
Proof.
  split; [| split; [| split]].
  - apply (proj1 (parseConfig_search_order
                    (sample_world [] None None false true) true
                    (start_state (static_command "app")))
                 "/srv/litefs.yml").
    discriminate.
  - apply (proj1 (proj2 (proj2 (parseConfig_search_order
                    (sample_world [] None None false true) true
                    (start_state (static_command "app")))))).
    repeat constructor; intros cfg; eexists; split; reflexivity.
  - apply (proj1 (proj2 (proj2 (proj2 (parseConfig_search_order
                    (sample_world [("/etc/litefs.yml", None)]
                       None None false true) true
                    (start_state (static_command "app"))))))
                 ["litefs.yml"; "/root/litefs.yml"] "/etc/litefs.yml" []).
    + reflexivity.
    + repeat constructor; intros cfg; eexists; split; reflexivity.
    + reflexivity.
    + intros cfg. reflexivity.
  - apply (proj2 (proj2 (proj2 (proj2 (parseConfig_search_order
                    (sample_world [("/root/litefs.yml", Some permission_denied)]
                       None None false true) true
                    (start_state (static_command "app"))))))
                 ["litefs.yml"] "/root/litefs.yml" ["/etc/litefs.yml"]
                 permission_denied).
    + reflexivity.
    + repeat constructor; intros cfg; eexists; split; reflexivity.
    + reflexivity.
    + intros cfg. reflexivity.
    + reflexivity.
Defined.

(** ** The consul leaser *)

(** [initConsul] when the OS hostname is needed and its lookup fails. *)
Lemma initConsul_hostname_error (W : World) (s : State) (cc : ConsulConfig.t)
    (e : error) :
  Consul (config (this s)) = Some cc ->
  ConsulConfig.Hostname cc = EmptyString ->
  snd (os_Hostname W) = Some e ->
  initConsul W s = (Err e, s, [EvOSHostname]).
Proof.
  intros Hcc Hh He. unfold initConsul, bind at 1. cbn [get_this].
  rewrite Hcc, Hh. cbn [String.eqb].
  unfold bind, emit, check. rewrite He. reflexivity.
Qed.

(** [initConsul] in every other case, with an HTTP server in place. *)
Lemma initConsul_run (W : World) (s : State) (cc : ConsulConfig.t)
    (srv : http.Server) :
  Consul (config (this s)) = Some cc ->
  HTTPServer (this s) = Some srv ->
  (ConsulConfig.Hostname cc = EmptyString -> snd (os_Hostname W) = None) ->
  initConsul W s =
  let l := leaser_opened W (this s) cc in
  let t := (initConsul_lookups W (this s) cc
            ++ [EvNewConsulLeaser (ConsulConfig.URL cc) (hostname_used W cc)
                  (advertiseURL_used W (this s) cc);
                EvLeaserOpen l])%list in
  match Leaser_Open W with
  | Some e => (Err (ErrWrap "cannot connect to consul" e), s, t)
  | None =>
      (Ok tt, {| this := set_Leaser (Some (litefs.OfConsul l)) (this s);
                 globals := globals s |}, t)
  end.
Proof.
  intros Hcc Hsrv Hlookup.
  unfold initConsul, leaser_opened, initConsul_lookups, advertiseURL_used,
    advertiseURL_given, hostname_used, takes_default, default_advertiseURL,
    HTTPServer_Port.
  unfold bind at 1. cbn [get_this]. rewrite Hcc.
  destruct (String.eqb_spec (ConsulConfig.Hostname cc) EmptyString) as [Hh | Hh].
  - rewrite (Hlookup Hh).
    destruct (AdvertiseURLFn (this s)) as [f |];
      unfold bind, emit, check, ret, wrap, get_this, modify_this, fail;
      cbn;
      match goal with
      | |- context [String.eqb ?a EmptyString && negb ?b] =>
          destruct (String.eqb a EmptyString && negb b); cbn
      end;
      rewrite ?Hsrv; cbn;
      destruct (Leaser_Open W); cbn;
      destruct (String.eqb (ConsulConfig.Key cc) EmptyString),
        (0 <? ConsulConfig.TTL cc), (0 <? ConsulConfig.LockDelay cc);
      reflexivity.
  - destruct (AdvertiseURLFn (this s)) as [f |];
      unfold bind, emit, check, ret, wrap, get_this, modify_this, fail;
      cbn;
      match goal with
      | |- context [String.eqb ?a EmptyString && negb ?b] =>
          destruct (String.eqb a EmptyString && negb b); cbn
      end;
      rewrite ?Hsrv; cbn;
      destruct (Leaser_Open W); cbn;
      destruct (String.eqb (ConsulConfig.Key cc) EmptyString),
        (0 <? ConsulConfig.TTL cc), (0 <? ConsulConfig.LockDelay cc);
      reflexivity.
Qed.

Ltac unfold_monad :=
  unfold bind, emit, check, ret, wrap, get_this, modify_this, get_globals,
    put_globals, fail, panic, block.

(** The only leaser [initConsul] ever opens is [leaser_opened]. *)
Lemma initConsul_opens (W : World) (s : State) (cc : ConsulConfig.t)
    (l : consul.Leaser) :
  Consul (config (this s)) = Some cc ->
  In (EvLeaserOpen l) (trace_of (initConsul W s)) ->
  l = leaser_opened W (this s) cc.
Proof.
  intros Hcc Hin.
  unfold initConsul, HTTPServer_Port, trace_of in Hin.
  unfold bind at 1 in Hin. cbn [get_this] in Hin. rewrite Hcc in Hin.
  unfold leaser_opened, advertiseURL_used, advertiseURL_given, hostname_used,
    takes_default, default_advertiseURL.
  revert Hin. unfold_monad. cbn.
  destruct (String.eqb (ConsulConfig.Hostname cc) EmptyString); cbn.
  - destruct (snd (os_Hostname W)); cbn; [intros [H | []]; discriminate |].
    destruct (AdvertiseURLFn (this s)) as [f |]; cbn;
      match goal with
      | |- context [String.eqb ?a EmptyString && negb ?b] =>
          destruct (String.eqb a EmptyString && negb b); cbn
      end;
      destruct (HTTPServer (this s)); cbn;
      destruct (Leaser_Open W); cbn;
      destruct (String.eqb (ConsulConfig.Key cc) EmptyString),
        (0 <? ConsulConfig.TTL cc), (0 <? ConsulConfig.LockDelay cc); cbn;
      intros Hin;
      repeat (destruct Hin as [Hin | Hin];
              [try discriminate; try (injection Hin as <-; reflexivity) |]);
      try contradiction.
  - destruct (AdvertiseURLFn (this s)) as [f |]; cbn;
      match goal with
      | |- context [String.eqb ?a EmptyString && negb ?b] =>
          destruct (String.eqb a EmptyString && negb b); cbn
      end;
      destruct (HTTPServer (this s)); cbn;
      destruct (Leaser_Open W); cbn;
      destruct (String.eqb (ConsulConfig.Key cc) EmptyString),
        (0 <? ConsulConfig.TTL cc), (0 <? ConsulConfig.LockDelay cc); cbn;
      intros Hin;
      repeat (destruct Hin as [Hin | Hin];
              [try discriminate; try (injection Hin as <-; reflexivity) |]);
      try contradiction.
Qed.

(** When [initConsul] succeeds it has opened [leaser_opened] and stored it
    in the command. *)
Lemma initConsul_ok (W : World) (s : State) (cc : ConsulConfig.t) :
  Consul (config (this s)) = Some cc ->
  result_of (initConsul W s) = Ok tt ->
  In (EvLeaserOpen (leaser_opened W (this s) cc)) (trace_of (initConsul W s))
  /\ state_of (initConsul W s)
     = {| this := set_Leaser
                    (Some (litefs.OfConsul (leaser_opened W (this s) cc)))
                    (this s);
          globals := globals s |}.
Proof.
  intros Hcc.
  unfold initConsul, HTTPServer_Port, trace_of, result_of, state_of.
  unfold leaser_opened, advertiseURL_used, advertiseURL_given, hostname_used,
    takes_default, default_advertiseURL.
  unfold_monad. cbn. rewrite Hcc.
  destruct (String.eqb (ConsulConfig.Hostname cc) EmptyString); cbn.
  - destruct (snd (os_Hostname W)); cbn; [discriminate |].
    destruct (AdvertiseURLFn (this s)) as [f |]; cbn;
      match goal with
      | |- context [String.eqb ?a EmptyString && negb ?b] =>
          destruct (String.eqb a EmptyString && negb b); cbn
      end;
      destruct (HTTPServer (this s)); cbn;
      destruct (Leaser_Open W); cbn; try discriminate;
      destruct (String.eqb (ConsulConfig.Key cc) EmptyString),
        (0 <? ConsulConfig.TTL cc), (0 <? ConsulConfig.LockDelay cc); cbn;
      intros _; (split; [repeat (first [now left | right]) | reflexivity]).
  - destruct (AdvertiseURLFn (this s)) as [f |]; cbn;
      match goal with
      | |- context [String.eqb ?a EmptyString && negb ?b] =>
          destruct (String.eqb a EmptyString && negb b); cbn
      end;
      destruct (HTTPServer (this s)); cbn;
      destruct (Leaser_Open W); cbn; try discriminate;
      destruct (String.eqb (ConsulConfig.Key cc) EmptyString),
        (0 <? ConsulConfig.TTL cc), (0 <? ConsulConfig.LockDelay cc); cbn;
      intros _; (split; [repeat (first [now left | right]) | reflexivity]).
Qed.

(** C7. [initStore] creates the Store from the data directory and the
    candidate flag and sets the retention duration and the monitor interval
    on it; the leaser that [initConsul] opens carries the configured key when
    it is non-empty and the configured TTL and lock-delay when they are
    strictly positive, and the defaults of [consul.NewLeaser] otherwise; a
    successful [initConsul] has opened that leaser and kept it. *)
Theorem knobs_forwarded (W : World) (s : State) :
  (exists st,
     initStore s
       = (Ok tt, {| this := set_Store (Some st) (this s);
                    globals := globals s |},
          [EvNewStore (DataDir (config (this s)))
                      (Candidate (config (this s)))]) /\
     litefs.path st = DataDir (config (this s)) /\
     litefs.candidate st = Candidate (config (this s)) /\
     litefs.RetentionDuration st
       = RetentionConfig.Duration (Retention (config (this s))) /\
     litefs.RetentionMonitorInterval st
       = RetentionConfig.MonitorInterval (Retention (config (this s)))) /\
  (forall cc l,
     Consul (config (this s)) = Some cc ->
     In (EvLeaserOpen l) (trace_of (initConsul W s)) ->
     (ConsulConfig.Key cc <> EmptyString -> consul.Key l = ConsulConfig.Key cc) /\
     (ConsulConfig.Key cc = EmptyString ->
      consul.Key l = consul.DefaultKey (consul_defaults W)) /\
     (0 < ConsulConfig.TTL cc -> consul.TTL l = ConsulConfig.TTL cc) /\
     (ConsulConfig.TTL cc <= 0 ->
      consul.TTL l = consul.DefaultTTL (consul_defaults W)) /\
     (0 < ConsulConfig.LockDelay cc ->
      consul.LockDelay l = ConsulConfig.LockDelay cc) /\
     (ConsulConfig.LockDelay cc <= 0 ->
      consul.LockDelay l = consul.DefaultLockDelay (consul_defaults W))) /\
  (forall cc,
     Consul (config (this s)) = Some cc ->
     result_of (initConsul W s) = Ok tt ->
     exists l,
       In (EvLeaserOpen l) (trace_of (initConsul W s)) /\
       Leaser (this (state_of (initConsul W s))) = Some (litefs.OfConsul l)).
Proof.
  split; [| split].
  - eexists. split; [reflexivity |]. cbn. repeat split.
  - intros cc l Hcc Hin.
    rewrite (initConsul_opens W s cc l Hcc Hin). cbn.
    destruct (String.eqb_spec (ConsulConfig.Key cc) EmptyString);
      destruct (Z.ltb_spec 0 (ConsulConfig.TTL cc));
      destruct (Z.ltb_spec 0 (ConsulConfig.LockDelay cc));
      repeat split; intros; try reflexivity; try contradiction; lia.
  - intros cc Hcc Hok.
    destruct (initConsul_ok W s cc Hcc Hok) as [Hin Hst].
    exists (leaser_opened W (this s) cc). split; [exact Hin |].
    rewrite Hst. reflexivity.
Qed.

Lemma knobs_forwarded_witness :
  (consul.Key (leaser_opened good_world
                 (this (listening_state (consul_command "app"))) sample_consul)
     = "litefs/app" /\
   consul.TTL (leaser_opened good_world
                 (this (listening_state (consul_command "app"))) sample_consul)
     = 10000000000 /\
   consul.LockDelay
     (leaser_opened good_world
        (this (listening_state (consul_command "app"))) sample_consul)
     = 5000000000) /\
  exists l,
    In (EvLeaserOpen l)
       (trace_of (initConsul good_world
                    (listening_state (consul_command "app")))) /\
    Leaser (this (state_of
              (initConsul good_world
                 (listening_state (consul_command "app")))))
      = Some (litefs.OfConsul l).
Proof.
  pose proof (knobs_forwarded good_world
                (listening_state (consul_command "app")))
    as (_ & Hknobs & Hkept).
  split.
  - destruct (Hknobs sample_consul
                (leaser_opened good_world
                   (this (listening_state (consul_command "app")))
                   sample_consul)
                eq_refl)
      as (Hkey & _ & _ & Httl & Hdelay & _).
    + vm_compute. repeat (first [now left | right]).
    + split; [apply Hkey; discriminate |].
      split; [apply Httl; vm_compute; discriminate | apply Hdelay; reflexivity].
  - apply (Hkept sample_consul); reflexivity.
Defined.

(** The only leaser [initConsul] creates is made from [hostname_used] and
    [advertiseURL_used]. *)
Lemma initConsul_creates (W : World) (s : State) (cc : ConsulConfig.t)
    (url host adv : string) :
  Consul (config (this s)) = Some cc ->
  In (EvNewConsulLeaser url host adv) (trace_of (initConsul W s)) ->
  url = ConsulConfig.URL cc /\
  host = hostname_used W cc /\
  adv = advertiseURL_used W (this s) cc.
Proof.
  intros Hcc.
  unfold initConsul, HTTPServer_Port, trace_of.
  unfold advertiseURL_used, advertiseURL_given, hostname_used,
    takes_default, default_advertiseURL.
  unfold_monad. cbn. rewrite Hcc.
  destruct (String.eqb (ConsulConfig.Hostname cc) EmptyString); cbn.
  - destruct (snd (os_Hostname W)); cbn; [intros [H | []]; discriminate |].
    destruct (AdvertiseURLFn (this s)) as [f |]; cbn;
      match goal with
      | |- context [String.eqb ?a EmptyString && negb ?b] =>
          destruct (String.eqb a EmptyString && negb b); cbn
      end;
      destruct (HTTPServer (this s)); cbn;
      destruct (Leaser_Open W); cbn;
      intros Hin;
      repeat (destruct Hin as [Hin | Hin];
              [try discriminate;
               try (injection Hin as <- <- <-; repeat split) |]);
      try contradiction.
  - destruct (AdvertiseURLFn (this s)) as [f |]; cbn;
      match goal with
      | |- context [String.eqb ?a EmptyString && negb ?b] =>
          destruct (String.eqb a EmptyString && negb b); cbn
      end;
      destruct (HTTPServer (this s)); cbn;
      destruct (Leaser_Open W); cbn;
      intros Hin;
      repeat (destruct Hin as [Hin | Hin];
              [try discriminate;
               try (injection Hin as <- <- <-; repeat split) |]);
      try contradiction.
Qed.

(** C8. In consul mode, with an empty configured hostname [initConsul] asks
    the operating system, fails with the lookup's error when there is one and
    otherwise creates the leaser under the name found; with no injected
    function and an empty configured advertise URL the leaser gets
    [http://<hostname>:<port of the HTTP server>] whenever the hostname is
    non-empty; an injected function replaces the configured advertise URL
    whatever that is, and its answer is subject to the same default. *)
Theorem initConsul_defaults (W : World) (s : State) (cc : ConsulConfig.t) :
  Consul (config (this s)) = Some cc ->
  (forall e,
     ConsulConfig.Hostname cc = EmptyString ->
     snd (os_Hostname W) = Some e ->
     result_of (initConsul W s) = Err e /\
     occurrences is_NewLeaser (trace_of (initConsul W s)) = 0%nat) /\
  (forall url host adv,
     In (EvNewConsulLeaser url host adv) (trace_of (initConsul W s)) ->
     (ConsulConfig.Hostname cc = EmptyString -> host = fst (os_Hostname W)) /\
     (ConsulConfig.Hostname cc <> EmptyString ->
      host = ConsulConfig.Hostname cc) /\
     (AdvertiseURLFn (this s) = None ->
      ConsulConfig.AdvertiseURL cc = EmptyString ->
      host <> EmptyString ->
      adv = "http://" ++ host ++ ":" ++ Itoa (Server_Port W)) /\
     (AdvertiseURLFn (this s) = None ->
      ConsulConfig.AdvertiseURL cc <> EmptyString ->
      adv = ConsulConfig.AdvertiseURL cc) /\
     (forall f,
        AdvertiseURLFn (this s) = Some f ->
        (f tt <> EmptyString -> adv = f tt) /\
        (f tt = EmptyString -> host <> EmptyString ->
         adv = "http://" ++ host ++ ":" ++ Itoa (Server_Port W)) /\
        (f tt = EmptyString -> host = EmptyString -> adv = EmptyString))) /\
  (forall srv,
     HTTPServer (this s) = Some srv ->
     (ConsulConfig.Hostname cc = EmptyString -> snd (os_Hostname W) = None) ->
     exists host adv,
       In (EvNewConsulLeaser (ConsulConfig.URL cc) host adv)
          (trace_of (initConsul W s))).
Proof.
  intros Hcc. split; [| split].
  - intros e Hh He.
    rewrite (initConsul_hostname_error W s cc e Hcc Hh He).
    split; reflexivity.
  - intros url host adv Hin.
    destruct (initConsul_creates W s cc url host adv Hcc Hin)
      as (_ & Hhost & Hadv).
    assert (Hhost' := Hhost).
    unfold hostname_used in Hhost'.
    unfold advertiseURL_used, advertiseURL_given, takes_default,
      default_advertiseURL in Hadv.
    rewrite <- Hhost in Hadv. clear Hhost.
    split.
    { intros Hh. rewrite Hh in Hhost'. exact Hhost'. }
    split.
    { intros Hh.
      destruct (String.eqb_spec (ConsulConfig.Hostname cc) EmptyString);
        [contradiction | exact Hhost']. }
    split.
    { intros Hfn Ha Hne. rewrite Hfn, Ha in Hadv. cbn in Hadv.
      destruct (String.eqb_spec host EmptyString);
        [contradiction | exact Hadv]. }
    split.
    { intros Hfn Ha. rewrite Hfn in Hadv.
      destruct (String.eqb_spec (ConsulConfig.AdvertiseURL cc) EmptyString);
        [contradiction | exact Hadv]. }
    intros f Hfn. rewrite Hfn in Hadv. split; [| split].
    + intros Hne.
      destruct (String.eqb_spec (f tt) EmptyString);
        [contradiction | exact Hadv].
    + intros He Hne. rewrite He in Hadv. cbn in Hadv.
      destruct (String.eqb_spec host EmptyString);
        [contradiction | exact Hadv].
    + intros He Hhe. rewrite He in Hadv. cbn in Hadv.
      destruct (String.eqb_spec host EmptyString);
        [exact Hadv | contradiction].
  - intros srv Hsrv Hlookup.
    rewrite (initConsul_run W s cc srv Hcc Hsrv Hlookup).
    exists (hostname_used W cc), (advertiseURL_used W (this s) cc).
    unfold trace_of.
    destruct (Leaser_Open W); cbn; apply in_or_app; right; left; reflexivity.
Qed.

Lemma initConsul_defaults_witness :
  (result_of (initConsul nameless_world
                (listening_state (consul_command "app")))
     = Err lookup_failed /\
   occurrences is_NewLeaser
     (trace_of (initConsul nameless_world
                  (listening_state (consul_command "app")))) = 0%nat) /\
  (exists host adv,
     In (EvNewConsulLeaser "http://consul:8500" host adv)
        (trace_of (initConsul good_world
                     (listening_state (consul_command "app"))))) /\
  ("node1" = fst (os_Hostname good_world) /\
   "http://node1:20202" = "http://" ++ "node1" ++ ":" ++ Itoa 20202).
Proof.
  split; [| split].
  - apply (proj1 (initConsul_defaults nameless_world
                    (listening_state (consul_command "app"))
                    sample_consul eq_refl) lookup_failed); reflexivity.
  - apply (proj2 (proj2 (initConsul_defaults good_world
                    (listening_state (consul_command "app"))
                    sample_consul eq_refl)) (http.NewServer ":20202"));
      reflexivity.
  - destruct (proj1 (proj2 (initConsul_defaults good_world
                    (listening_state (consul_command "app"))
                    sample_consul eq_refl))
                "http://consul:8500" "node1" "http://node1:20202")
      as (Hhost & _ & Hdefault & _).
    + vm_compute. repeat (first [now left | right]).
    + split; [apply Hhost; reflexivity |].
      apply Hdefault; [reflexivity | reflexivity | discriminate].
Defined.

(** ** The monad: results, states and traces of composed computations *)

Section Composition.

Context {A B : Type}.

Lemma result_bind (m : M A) (k : A -> M B) (s : State) :
  result_of (bind m k s) =
  match result_of (m s) with
  | Ok a => result_of (k a (state_of (m s)))
  | Err e => Err e
  | Panic msg => Panic msg
  | Blocked => Blocked
  end.
Proof.
  unfold bind, result_of, state_of.
  destruct (m s) as [[[a | e | msg |] s1] t1]; cbn; try reflexivity.
  destruct (k a s1) as [[r s2] t2]. reflexivity.
Qed.

Lemma trace_bind (m : M A) (k : A -> M B) (s : State) :
  trace_of (bind m k s) =
  (trace_of (m s) ++
   match result_of (m s) with
   | Ok a => trace_of (k a (state_of (m s)))
   | _ => []
   end)%list.
Proof.
  unfold bind, result_of, state_of, trace_of.
  destruct (m s) as [[[a | e | msg |] s1] t1]; cbn;
    try (now rewrite app_nil_r).
  destruct (k a s1) as [[r s2] t2]. reflexivity.
Qed.

Lemma state_bind (m : M A) (k : A -> M B) (s : State) :
  state_of (bind m k s) =
  match result_of (m s) with
  | Ok a => state_of (k a (state_of (m s)))
  | _ => state_of (m s)
  end.
Proof.
  unfold bind, result_of, state_of.
  destruct (m s) as [[[a | e | msg |] s1] t1]; cbn; try reflexivity.
  destruct (k a s1) as [[r s2] t2]. reflexivity.
Qed.

(** A successful composition: both parts succeeded. *)
Lemma bind_ok_inv (m : M A) (k : A -> M B) (s : State) (b : B) :
  result_of (bind m k s) = Ok b ->
  exists a,
    result_of (m s) = Ok a /\
    result_of (k a (state_of (m s))) = Ok b /\
    trace_of (bind m k s)
      = (trace_of (m s) ++ trace_of (k a (state_of (m s))))%list /\
    state_of (bind m k s) = state_of (k a (state_of (m s))).
Proof.
  rewrite result_bind, trace_bind, state_bind.
  destruct (result_of (m s)) as [a | e | msg |]; try discriminate.
  intros H. exists a. repeat split. exact H.
Qed.

Lemma emits_only_bind (P : Event -> bool) (m : M A) (k : A -> M B) :
  emits_only P m -> (forall a, emits_only P (k a)) -> emits_only P (bind m k).
Proof.
  intros Hm Hk s. rewrite trace_bind, forallb_app, Hm. cbn.
  destruct (result_of (m s)); try reflexivity. apply Hk.
Qed.

End Composition.

Section Wrapping.

Context {A : Type}.

Lemma result_wrap (prefix : string) (m : M A) (s : State) :
  result_of (wrap prefix m s) =
  match result_of (m s) with
  | Err e => Err (ErrWrap prefix e)
  | r => r
  end.
Proof.
  unfold wrap, result_of. destruct (m s) as [[[a | e | msg |] s1] t1];
    reflexivity.
Qed.

Lemma trace_wrap (prefix : string) (m : M A) (s : State) :
  trace_of (wrap prefix m s) = trace_of (m s).
Proof.
  unfold wrap, trace_of. destruct (m s) as [[[a | e | msg |] s1] t1];
    reflexivity.
Qed.

Lemma state_wrap (prefix : string) (m : M A) (s : State) :
  state_of (wrap prefix m s) = state_of (m s).
Proof.
  unfold wrap, state_of. destruct (m s) as [[[a | e | msg |] s1] t1];
    reflexivity.
Qed.

Lemma wrap_ok_inv (prefix : string) (m : M A) (s : State) (a : A) :
  result_of (wrap prefix m s) = Ok a -> result_of (m s) = Ok a.
Proof.
  rewrite result_wrap. destruct (result_of (m s)); congruence.
Qed.

Lemma emits_only_wrap (P : Event -> bool) (prefix : string) (m : M A) :
  emits_only P m -> emits_only P (wrap prefix m).
Proof.
  intros Hm s. rewrite trace_wrap. apply Hm.
Qed.

Lemma emits_only_silent (P : Event -> bool) (m : M A) :
  (forall s, trace_of (m s) = []) -> emits_only P m.
Proof.
  intros H s. now rewrite H.
Qed.

End Wrapping.

Lemma emits_only_emit (P : Event -> bool) (e : Event) :
  P e = true -> emits_only P (emit e).
Proof.
  intros H s. cbn. now rewrite H.
Qed.

Lemma emits_only_once (P : Event -> bool) (f : M unit) :
  emits_only P f -> emits_only P (expvarOnce_Do f).
Proof.
  intros Hf s. unfold expvarOnce_Do.
  destruct (expvarOnce (globals s)); [reflexivity |].
  specialize (Hf s). destruct (f s) as [[r s1] t1]. exact Hf.
Qed.

(** Proves [emits_only P m] by going through the text of [m]. *)
Ltac emits :=
  repeat first
    [ apply emits_only_bind; [| intros ?]
    | apply emits_only_wrap
    | apply emits_only_once
    | apply emits_only_emit; reflexivity
    | apply emits_only_silent; intros ?; reflexivity
    | match goal with
      | |- emits_only _ (match ?x with _ => _ end) => destruct x
      | |- emits_only _ (check ?x) => destruct x
      end ].

Lemma waitReady_emits (W : World) :
  emits_only (fun e => not_leaser_step e && not_CmdStart e) (waitReady W).
Proof. unfold waitReady. emits. Qed.

Lemma execCmd_emits (W : World) :
  emits_only (fun e => not_leaser_step e && not_startup_step e) (execCmd W).
Proof. unfold execCmd. emits. Qed.

(** ** The steps of a successful [Run] *)

Lemma filter_none (P Q : Event -> bool) (tr : list Event) :
  (forall e, Q e = true -> P e = false) ->
  forallb Q tr = true -> filter P tr = [].
Proof.
  intros HPQ. induction tr as [| e tr IH]; cbn; [reflexivity |].
  intros H. apply andb_prop in H as [He Htr].
  rewrite (HPQ e He). auto.
Qed.

Lemma initConsul_lookups_not_startup (W : World) (c : MountCommand)
    (cc : ConsulConfig.t) :
  filter is_startup_step (initConsul_lookups W c cc) = [].
Proof.
  unfold initConsul_lookups.
  destruct (String.eqb (ConsulConfig.Hostname cc) EmptyString),
    (AdvertiseURLFn c), (takes_default _ _); reflexivity.
Qed.

Lemma instantiateLeaser_ok (W : World) (s : State) (srv : http.Server) :
  HTTPServer (this s) = Some srv ->
  result_of (instantiateLeaser W s) = Ok tt ->
  exists l,
    filter is_startup_step (trace_of (instantiateLeaser W s))
      = [instantiation_of l] /\
    state_of (instantiateLeaser W s)
      = {| this := set_Leaser (Some l) (this s); globals := globals s |}.
Proof.
  intros Hsrv. unfold instantiateLeaser.
  rewrite result_bind, trace_bind, state_bind. cbn.
  destruct (Consul (config (this s))) as [cc |] eqn:Hcc.
  - rewrite result_wrap, trace_wrap, state_wrap.
    destruct (String.eqb_spec (ConsulConfig.Hostname cc) EmptyString)
      as [Hh | Hh].
    + destruct (snd (os_Hostname W)) as [e |] eqn:He.
      * rewrite (initConsul_hostname_error W s cc e Hcc Hh He). discriminate.
      * rewrite (initConsul_run W s cc srv Hcc Hsrv (fun _ => He)). cbn zeta.
        destruct (Leaser_Open W); [discriminate |]. intros _.
        exists (litefs.OfConsul (leaser_opened W (this s) cc)).
        unfold trace_of, state_of. cbn [fst snd].
        rewrite filter_app, initConsul_lookups_not_startup. split; reflexivity.
    + rewrite (initConsul_run W s cc srv Hcc Hsrv
                 (fun H => False_ind _ (Hh H))). cbn zeta.
      destruct (Leaser_Open W); [discriminate |]. intros _.
      exists (litefs.OfConsul (leaser_opened W (this s) cc)).
      unfold trace_of, state_of. cbn [fst snd].
      rewrite filter_app, initConsul_lookups_not_startup. split; reflexivity.
  - destruct (Static (config (this s))) as [sc |]; [| discriminate].
    intros _.
    exists (litefs.OfStatic
              (litefs.NewStaticLeaser (StaticConfig.Primary sc)
                 (StaticConfig.Hostname sc) (StaticConfig.AdvertiseURL sc))).
    split; reflexivity.
Qed.

Lemma openStore_ok (W : World) (s : State) :
  result_of (openStore W s) = Ok tt ->
  exists st0,
    Store (this s) = Some st0 /\
    filter is_startup_step (trace_of (openStore W s))
      = [EvStoreOpen (litefs.set_Leaser (Leaser (this s)) st0)] /\
    this (state_of (openStore W s))
      = set_Store (Some (litefs.set_Leaser (Leaser (this s)) st0)) (this s).
Proof.
  unfold openStore, expvar_Publish, expvarOnce_Do, result_of, trace_of,
    state_of.
  unfold_monad. cbn.
  destruct (Store (this s)) as [st0 |]; cbn; [| discriminate].
  destruct (Store_Open W); cbn; [discriminate |].
  destruct (expvarOnce (globals s)); cbn; [eauto |].
  destruct (existsb _ _); cbn; [discriminate | eauto].
Qed.

Lemma initFileSystem_ok (W : World) (s : State) :
  result_of (initFileSystem W s) = Ok tt ->
  filter is_startup_step (trace_of (initFileSystem W s))
    = [EvFileSystemMount (MountDir (config (this s)))] /\
  HTTPServer (this (state_of (initFileSystem W s))) = HTTPServer (this s).
Proof.
  unfold initFileSystem, result_of, trace_of, state_of.
  unfold_monad. cbn.
  destruct (FileSystem_Mount W); cbn; [discriminate |].
  destruct (Store (this s)); cbn; [split; reflexivity | discriminate].
Qed.

Lemma HTTPServer_Serve_ok (s : State) :
  result_of (HTTPServer_Serve s) = Ok tt ->
  filter is_startup_step (trace_of (HTTPServer_Serve s)) = [EvServerServe].
Proof.
  unfold HTTPServer_Serve, result_of, trace_of. unfold_monad. cbn.
  destruct (HTTPServer (this s)); cbn; [reflexivity | discriminate].
Qed.

Lemma waitReady_ok (W : World) (s : State) :
  result_of (waitReady W s) = Ok tt ->
  trace_of (waitReady W s) = [EvSelect; EvReady] /\ Store_Ready W = true.
Proof.
  unfold waitReady, result_of, trace_of. unfold_monad. cbn.
  destruct (ctx_Done W), (Store_Ready W); cbn;
    try destruct (select_picks_ctx W); cbn; try discriminate;
    split; reflexivity.
Qed.

Lemma execCmd_not_startup (W : World) (s : State) :
  filter is_startup_step (trace_of (execCmd W s)) = [].
Proof.
  apply filter_none with (Q := fun e => not_leaser_step e && not_startup_step e).
  - intros e H. apply andb_prop in H as [_ H].
    unfold not_startup_step in H. now apply negb_true_iff in H.
  - apply execCmd_emits.
Qed.

(** C6. In every run that ends without error the leaser is created first,
    the Store is opened next, with that leaser assigned to it, then the file
    system is mounted, then the HTTP server starts serving, and only then
    does [Run] wait for the readiness signal; each of these steps happens
    once. *)
Theorem Run_startup_order (W : World) (s : State) :
  result_of (Run W s) = Ok tt ->
  exists l st,
    filter is_startup_step (trace_of (Run W s))
      = [instantiation_of l; EvStoreOpen st;
         EvFileSystemMount (MountDir (config (this s)));
         EvServerServe; EvSelect] /\
    litefs.Leaser_ st = Some l.
Proof.
  intros H. unfold Run in *.
  apply bind_ok_inv in H as ([] & _ & H & -> & _).
  apply bind_ok_inv in H as ([] & _ & H & -> & _).
  rewrite state_wrap, trace_wrap in *.
  apply bind_ok_inv in H as ([] & Hlisten & H & -> & _).
  rewrite state_wrap, trace_wrap in *. apply wrap_ok_inv in Hlisten.
  set (s1 := state_of (initStore (state_of (emit EvVersion s)))) in *.
  assert (Hs2 : exists srv,
             state_of (initHTTPServer W s1)
             = {| this := set_HTTPServer (Some srv) (this s1);
                  globals := globals s1 |}).
  { revert Hlisten. unfold initHTTPServer, result_of, state_of.
    unfold_monad. cbn. destruct (Server_Listen W); cbn; [discriminate |].
    eauto. }
  destruct Hs2 as [srv Hs2].
  assert (Htl : filter is_startup_step (trace_of (initHTTPServer W s1)) = []).
  { unfold initHTTPServer, trace_of. unfold_monad. cbn.
    destruct (Server_Listen W); reflexivity. }
  set (s2 := state_of (initHTTPServer W s1)) in *.
  apply bind_ok_inv in H as ([] & Hleaser & H & -> & _).
  destruct (instantiateLeaser_ok W s2 srv) as (l & Htleaser & Hs3);
    [rewrite Hs2; reflexivity | exact Hleaser |].
  set (s3 := state_of (instantiateLeaser W s2)) in *.
  apply bind_ok_inv in H as ([] & Hopen & H & -> & _).
  rewrite state_wrap, trace_wrap in *. apply wrap_ok_inv in Hopen.
  destruct (openStore_ok W s3 Hopen) as (st0 & Hst0 & Htopen & Hs4).
  set (s4 := state_of (openStore W s3)) in *.
  apply bind_ok_inv in H as ([] & Hmount & H & -> & _).
  rewrite state_wrap, trace_wrap in *. apply wrap_ok_inv in Hmount.
  destruct (initFileSystem_ok W s4 Hmount) as (Htmount & Hs5).
  set (s5 := state_of (initFileSystem W s4)) in *.
  apply bind_ok_inv in H as ([] & Hserve & H & -> & _).
  apply HTTPServer_Serve_ok in Hserve.
  apply bind_ok_inv in H as ([] & Hwait & H & -> & _).
  apply waitReady_ok in Hwait as [Hwait _].
  rewrite trace_wrap.
  exists l, (litefs.set_Leaser (Leaser (this s3)) st0).
  rewrite !filter_app, Htl, Htleaser, Htopen, Htmount, Hserve, Hwait,
    execCmd_not_startup.
  rewrite Hs4, Hs3, Hs2. cbn. split; reflexivity.
Qed.

(** ** Regrouping [Run] around the wait *)

Lemma bind_assoc {A B C : Type} (m : M A) (k : A -> M B) (h : B -> M C)
    (s : State) :
  bind (bind m k) h s = bind m (fun a => bind (k a) h) s.
Proof.
  unfold bind.
  destruct (m s) as [[[a | e | msg |] s1] t1]; try reflexivity.
  destruct (k a s1) as [[[b | e | msg |] s2] t2]; try reflexivity.
  destruct (h b s2) as [[r s3] t3]. now rewrite app_assoc.
Qed.

Lemma bind_ext {A B : Type} (m : M A) (k k' : A -> M B) (s : State) :
  (forall a s1, k a s1 = k' a s1) -> bind m k s = bind m k' s.
Proof.
  intros H. unfold bind.
  destruct (m s) as [[[a | e | msg |] s1] t1]; try reflexivity.
  now rewrite H.
Qed.

Lemma Run_regroup (W : World) (s : State) :
  Run W s = bind (Run_before_wait W) (fun _ => Run_from_wait W) s.
Proof.
  unfold Run, Run_before_wait, Run_from_wait.
  repeat (rewrite bind_assoc; apply bind_ext; intros ? ?).
  reflexivity.
Qed.

Lemma Run_before_wait_emits (W : World) :
  emits_only before_wait (Run_before_wait W).
Proof.
  unfold Run_before_wait, initStore, initHTTPServer, instantiateLeaser,
    initConsul, HTTPServer_Port, openStore, expvar_Publish, initFileSystem,
    HTTPServer_Serve.
  emits.
Qed.

(** ** Events that come after others *)

Section Preceded.

Variables P Q : Event -> bool.

Lemma each_preceded_from_seen (tr : list Event) :
  each_preceded_from P Q true tr = true.
Proof.
  induction tr as [| e tr IH]; cbn; [reflexivity |].
  rewrite IH. now destruct (Q e).
Qed.

Lemma each_preceded_from_quiet (seen : bool) (tr : list Event) :
  forallb (fun e => negb (Q e)) tr = true ->
  each_preceded_from P Q seen tr = true.
Proof.
  revert seen. induction tr as [| e tr IH]; cbn; intros seen H;
    [reflexivity |].
  apply andb_prop in H as [He Htr]. apply negb_true_iff in He.
  rewrite He. cbn. now apply IH.
Qed.

Lemma each_preceded_from_app (seen : bool) (t1 t2 : list Event) :
  each_preceded_from P Q seen (t1 ++ t2)%list =
  each_preceded_from P Q seen t1
  && each_preceded_from P Q (seen || existsb P t1) t2.
Proof.
  revert seen. induction t1 as [| e t1 IH]; cbn; intros seen.
  - now rewrite orb_false_r.
  - rewrite IH, andb_assoc, orb_assoc. reflexivity.
Qed.

Lemma each_preceded_from_after (seen : bool) (pre post : list Event)
    (e : Event) :
  forallb (fun x => negb (Q x)) pre = true ->
  P e = true -> Q e = false ->
  each_preceded_from P Q seen (pre ++ e :: post)%list = true.
Proof.
  intros Hpre HP HQ.
  rewrite each_preceded_from_app, (each_preceded_from_quiet _ _ Hpre).
  cbn. rewrite HP, HQ, orb_true_r. apply each_preceded_from_seen.
Qed.

Lemma each_preceded_from_mono (seen : bool) (tr : list Event) :
  each_preceded_from P Q false tr = true ->
  each_preceded_from P Q seen tr = true.
Proof.
  destruct seen; [intros _; apply each_preceded_from_seen | auto].
Qed.

Lemma each_preceded_from_sound (seen : bool) (tr : list Event) :
  each_preceded_from P Q seen tr = true ->
  forall l1 e l2, tr = (l1 ++ e :: l2)%list -> Q e = true ->
  seen = true \/ exists e', In e' l1 /\ P e' = true.
Proof.
  revert seen. induction tr as [| x tr IH]; intros seen H l1 e l2 Heq HQ.
  - destruct l1; discriminate.
  - cbn in H. apply andb_prop in H as [Hx Htr].
    destruct l1 as [| y l1]; cbn in Heq; injection Heq as -> ->.
    + rewrite HQ in Hx. now left.
    + destruct (IH _ Htr l1 e l2 eq_refl HQ) as [Hseen | (e' & Hin & HP)].
      * apply orb_prop in Hseen as [Hseen | HPy]; [now left |].
        right. exists y. split; [now left | exact HPy].
      * right. exists e'. split; [now right | exact HP].
Qed.

Lemma each_preceded_decided (tr : list Event) :
  each_preceded_from P Q false tr = true -> each_preceded P Q tr.
Proof.
  intros H l1 e l2 Heq HQ.
  destruct (each_preceded_from_sound false tr H l1 e l2 Heq HQ)
    as [Hf | Hex]; [discriminate | exact Hex].
Qed.

End Preceded.

(** ** The wait and the subcommand *)

Lemma forallb_weaken (P Q : Event -> bool) (tr : list Event) :
  (forall e, P e = true -> Q e = true) ->
  forallb P tr = true -> forallb Q tr = true.
Proof.
  intros HPQ. induction tr as [| e tr IH]; cbn; [reflexivity |].
  intros H. apply andb_prop in H as [He Htr].
  now rewrite (HPQ e He), IH.
Qed.

Lemma before_wait_not_CmdStart (e : Event) :
  before_wait e = true -> negb (is_CmdStart e) = true.
Proof.
  unfold before_wait. intros H. now apply andb_prop in H as [H _].
Qed.

Lemma before_wait_not_Select (tr : list Event) :
  forallb before_wait tr = true -> In EvSelect tr -> False.
Proof.
  intros H Hin. rewrite forallb_forall in H. specialize (H _ Hin).
  discriminate.
Qed.

Lemma Run_from_wait_cancelled (W : World) (s : State) :
  ctx_Done W = true -> Store_Ready W = false ->
  Run_from_wait W s = (Err (ctx_Err W), s, [EvSelect; EvCtxDone]).
Proof.
  intros Hdone Hready. unfold Run_from_wait, waitReady.
  rewrite Hdone, Hready. reflexivity.
Qed.

Lemma Run_from_wait_guarded (W : World) (s : State) :
  each_preceded_from is_Ready is_CmdStart false
    (trace_of (Run_from_wait W s)) = true.
Proof.
  unfold Run_from_wait. rewrite trace_bind.
  destruct (result_of (waitReady W s)) as [[] | e | msg |] eqn:Hwait.
  - apply waitReady_ok in Hwait as [-> _]. cbn.
    apply each_preceded_from_seen.
  - rewrite app_nil_r. apply each_preceded_from_quiet.
    eapply forallb_weaken; [| apply waitReady_emits].
    intros x H. now apply andb_prop in H as [_ H].
  - rewrite app_nil_r. apply each_preceded_from_quiet.
    eapply forallb_weaken; [| apply waitReady_emits].
    intros x H. now apply andb_prop in H as [_ H].
  - rewrite app_nil_r. apply each_preceded_from_quiet.
    eapply forallb_weaken; [| apply waitReady_emits].
    intros x H. now apply andb_prop in H as [_ H].
Qed.

Lemma Run_from_wait_started (W : World) (s : State) (c : exec.Cmd) :
  In (EvCmdStart c) (trace_of (Run_from_wait W s)) -> Store_Ready W = true.
Proof.
  unfold Run_from_wait. rewrite trace_bind.
  destruct (result_of (waitReady W s)) as [[] | e | msg |] eqn:Hwait;
    [intros _; now apply waitReady_ok in Hwait |..];
    rewrite app_nil_r; intros Hin;
    pose proof (waitReady_emits W s) as H;
    rewrite forallb_forall in H; specialize (H _ Hin); discriminate.
Qed.

(** C3, as the code has it.  In every run the subcommand is started only
    after [Run] has received the readiness signal, which it receives only
    when the signal has fired.  When the context is cancelled and the
    readiness signal has not fired, the subcommand is never started and
    [Run] does not return [nil]: a run that has come to the wait returns the
    context's error, and a run that has not has failed in an earlier step. *)
Theorem Run_exec_after_ready (W : World) (s : State) :
  each_preceded is_Ready is_CmdStart (trace_of (Run W s)) /\
  (forall c, In (EvCmdStart c) (trace_of (Run W s)) -> Store_Ready W = true) /\
  (ctx_Done W = true -> Store_Ready W = false ->
   occurrences is_CmdStart (trace_of (Run W s)) = 0%nat /\
   result_of (Run W s) <> Ok tt /\
   (In EvSelect (trace_of (Run W s)) ->
    result_of (Run W s) = Err (ctx_Err W))).
Proof.
  rewrite Run_regroup, trace_bind, result_bind.
  pose proof (Run_before_wait_emits W s) as Hpre.
  assert (Hquiet : forallb (fun e => negb (is_CmdStart e))
                     (trace_of (Run_before_wait W s)) = true).
  { eapply forallb_weaken; [apply before_wait_not_CmdStart | exact Hpre]. }
  split; [| split].
  - apply each_preceded_decided. rewrite each_preceded_from_app.
    rewrite (each_preceded_from_quiet _ _ _ _ Hquiet), andb_true_l.
    destruct (result_of (Run_before_wait W s));
      [apply each_preceded_from_mono, Run_from_wait_guarded
      | reflexivity ..].
  - intros c Hin. apply in_app_or in Hin as [Hin | Hin].
    + rewrite forallb_forall in Hquiet. specialize (Hquiet _ Hin).
      discriminate.
    + destruct (result_of (Run_before_wait W s)); try contradiction.
      now apply Run_from_wait_started in Hin.
  - intros Hdone Hready. split; [| split].
    + unfold occurrences. rewrite filter_app.
      rewrite (filter_none is_CmdStart (fun e => negb (is_CmdStart e)));
        [| intros e H; now apply negb_true_iff in H | exact Hquiet].
      destruct (result_of (Run_before_wait W s)); try reflexivity.
      now rewrite Run_from_wait_cancelled.
    + destruct (result_of (Run_before_wait W s)); try discriminate.
      now rewrite Run_from_wait_cancelled.
    + intros Hin. apply in_app_or in Hin as [Hin | Hin].
      * destruct (before_wait_not_Select _ Hpre Hin).
      * destruct (result_of (Run_before_wait W s)); try contradiction.
        now rewrite Run_from_wait_cancelled.
Qed.

Lemma Run_exec_after_ready_witness :
  (occurrences is_CmdStart
     (trace_of (Run cancelled_world (start_state (static_command "app"))))
     = 0%nat /\
   result_of (Run cancelled_world (start_state (static_command "app")))
     = Err ErrCanceled) /\
  each_preceded is_Ready is_CmdStart
    (trace_of (Run good_world (start_state (static_command "app")))) /\
  occurrences is_CmdStart
    (trace_of (Run good_world (start_state (static_command "app")))) = 1%nat.
Proof.
  split; [| split].
  - destruct (Run_exec_after_ready cancelled_world
                (start_state (static_command "app"))) as (_ & _ & H).
    destruct (H eq_refl eq_refl) as (Hnone & _ & Herr).
    split; [exact Hnone |].
    apply Herr. vm_compute. repeat (first [now left | right]).
  - apply (proj1 (Run_exec_after_ready good_world
                    (start_state (static_command "app")))).
  - reflexivity.
Defined.

(** C3 as stated fails.  With the context cancelled and the Store never
    ready, a run whose HTTP server cannot listen returns the error of that
    step, not the context's error. *)
Lemma Run_cancelled_returns_startup_error :
  Exec (config (static_command "app")) = "app" /\
  ctx_Done busy_cancelled_world = true /\
  Store_Ready busy_cancelled_world = false /\
  ctx_Err busy_cancelled_world = ErrCanceled /\
  result_of (Run busy_cancelled_world (start_state (static_command "app")))
    = Err (ErrWrap "cannot init http server"
             (ErrWrap "cannot open http server" address_in_use)).
Proof.
  repeat split.
Qed.

Lemma Run_startup_order_witness :
  exists l st,
    filter is_startup_step
      (trace_of (Run good_world (start_state (static_command "app"))))
      = [instantiation_of l; EvStoreOpen st; EvFileSystemMount "/litefs";
         EvServerServe; EvSelect] /\
    litefs.Leaser_ st = Some l.
Proof.
  apply (Run_startup_order good_world (start_state (static_command "app"))).
  reflexivity.
Defined.

(** ** Which leaser [Run] instantiates *)

Lemma Run_after_leaser_emits (W : World) :
  emits_only not_leaser_step (Run_after_leaser W).
Proof.
  unfold Run_after_leaser, openStore, expvar_Publish, initFileSystem,
    HTTPServer_Serve, waitReady, execCmd.
  emits.
Qed.

Lemma filter_leaser_quiet (tr : list Event) :
  forallb not_leaser_step tr = true -> filter is_leaser_step tr = [].
Proof.
  apply filter_none. intros e H. now apply negb_true_iff in H.
Qed.

Lemma filter_bind {A B : Type} (P : Event -> bool) (m : M A) (k : A -> M B)
    (s : State) :
  filter P (trace_of (bind m k s)) =
  (filter P (trace_of (m s)) ++
   match result_of (m s) with
   | Ok a => filter P (trace_of (k a (state_of (m s))))
   | _ => []
   end)%list.
Proof.
  rewrite trace_bind, filter_app. now destruct (result_of (m s)).
Qed.

Lemma initStore_run (s : State) :
  result_of (initStore s) = Ok tt /\
  trace_of (initStore s)
    = [EvNewStore (DataDir (config (this s))) (Candidate (config (this s)))].
Proof. split; reflexivity. Qed.

Lemma initHTTPServer_run (W : World) (s : State) :
  initHTTPServer W s =
  match Server_Listen W with
  | Some e =>
      (Err (ErrWrap "cannot open http server" e), s,
       [EvServerListen (HTTPConfig.Addr (HTTP (config (this s))))])
  | None =>
      (Ok tt,
       {| this := set_HTTPServer
                    (Some (http.NewServer
                             (HTTPConfig.Addr (HTTP (config (this s))))))
                    (this s);
          globals := globals s |},
       [EvServerListen (HTTPConfig.Addr (HTTP (config (this s))))])
  end.
Proof.
  unfold initHTTPServer. unfold_monad. cbn.
  destruct (Server_Listen W); reflexivity.
Qed.

(** The leaser steps of a run are those of its [instantiateLeaser], which
    is reached when the HTTP server listens. *)
Lemma Run_leaser_steps (W : World) (s : State) :
  filter is_leaser_step (trace_of (Run W s)) =
  match Server_Listen W with
  | Some _ => []
  | None =>
      filter is_leaser_step (trace_of (instantiateLeaser W (state_at_leaser s)))
  end.
Proof.
  unfold Run.
  rewrite filter_bind.
  change (emit EvVersion s) with (Ok tt, s, [EvVersion]).
  cbn [result_of trace_of state_of fst snd filter is_leaser_step app].
  rewrite filter_bind, trace_wrap, result_wrap, state_wrap.
  destruct (initStore_run s) as [-> ->].
  cbn [filter is_leaser_step app].
  rewrite filter_bind, trace_wrap, result_wrap, state_wrap.
  rewrite initHTTPServer_run.
  destruct (Server_Listen W) as [e |];
    cbn [result_of trace_of state_of fst snd filter is_leaser_step app];
    [reflexivity |].
  fold (Run_after_leaser W).
  rewrite filter_bind.
  match goal with
  | |- (_ ++ ?t)%list = _ => assert (Hrest : t = [])
  end.
  { destruct (result_of (instantiateLeaser W _)); try reflexivity.
    apply filter_leaser_quiet, Run_after_leaser_emits. }
  rewrite Hrest, app_nil_r. reflexivity.
Qed.

Lemma initConsul_lookups_not_leaser (W : World) (c : MountCommand)
    (cc : ConsulConfig.t) :
  filter is_leaser_step (initConsul_lookups W c cc) = [].
Proof.
  unfold initConsul_lookups.
  destruct (String.eqb (ConsulConfig.Hostname cc) EmptyString),
    (AdvertiseURLFn c), (takes_default _ _); reflexivity.
Qed.

Lemma instantiateLeaser_consul (W : World) (s : State) (cc : ConsulConfig.t)
    (srv : http.Server) :
  Consul (config (this s)) = Some cc ->
  HTTPServer (this s) = Some srv ->
  (ConsulConfig.Hostname cc = EmptyString -> snd (os_Hostname W) = None) ->
  filter is_leaser_step (trace_of (instantiateLeaser W s))
    = [EvNewConsulLeaser (ConsulConfig.URL cc) (hostname_used W cc)
         (advertiseURL_used W (this s) cc);
       EvLeaserOpen (leaser_opened W (this s) cc)].
Proof.
  intros Hcc Hsrv Hlookup. unfold instantiateLeaser.
  rewrite filter_bind. cbn [get_this result_of trace_of state_of fst snd
                            filter app].
  rewrite Hcc, trace_wrap, (initConsul_run W s cc srv Hcc Hsrv Hlookup).
  cbn zeta. unfold trace_of.
  destruct (Leaser_Open W); cbn [snd];
    now rewrite filter_app, initConsul_lookups_not_leaser.
Qed.

Lemma instantiateLeaser_nameless (W : World) (s : State) (cc : ConsulConfig.t)
    (e : error) :
  Consul (config (this s)) = Some cc ->
  ConsulConfig.Hostname cc = EmptyString ->
  snd (os_Hostname W) = Some e ->
  filter is_leaser_step (trace_of (instantiateLeaser W s)) = [].
Proof.
  intros Hcc Hh He. unfold instantiateLeaser.
  rewrite filter_bind. cbn [get_this result_of trace_of state_of fst snd
                            filter app].
  now rewrite Hcc, trace_wrap, (initConsul_hostname_error W s cc e Hcc Hh He).
Qed.

Lemma instantiateLeaser_static (W : World) (s : State) (sc : StaticConfig.t) :
  Consul (config (this s)) = None ->
  Static (config (this s)) = Some sc ->
  filter is_leaser_step (trace_of (instantiateLeaser W s))
    = [EvNewStaticLeaser (StaticConfig.Primary sc) (StaticConfig.Hostname sc)
         (StaticConfig.AdvertiseURL sc)].
Proof.
  intros Hcc Hsc. unfold instantiateLeaser.
  rewrite filter_bind. cbn [get_this result_of trace_of state_of fst snd
                            filter app].
  now rewrite Hcc, Hsc.
Qed.

Lemma occurrences_NewLeaser (tr : list Event) :
  occurrences is_NewLeaser tr
  = occurrences is_NewLeaser (filter is_leaser_step tr).
Proof.
  unfold occurrences. induction tr as [| e tr IH]; [reflexivity |].
  destruct e; cbn; auto.
Qed.

Lemma Validate_lease_mode (c : MountCommand) :
  Validate c = None ->
  (exists cc, Consul (config c) = Some cc /\ Static (config c) = None)
  \/ (exists sc, Consul (config c) = None /\ Static (config c) = Some sc).
Proof.
  unfold Validate.
  destruct (String.eqb _ _); [discriminate |].
  destruct (String.eqb _ _); [discriminate |].
  destruct (String.eqb _ _); [discriminate |].
  destruct (Consul (config c)) as [cc |], (Static (config c)) as [sc |];
    try discriminate; eauto.
Qed.

(** C2, as the code has it.  For every configuration accepted by
    [Validate], [Run] instantiates at most one leaser, chosen by the
    configuration alone.  When the HTTP server listens and the consul section
    is present, [Run] creates a consul leaser and opens it, unless the
    configured hostname is empty and the hostname lookup fails, in which case
    no leaser is created; when the HTTP server listens and the consul section
    is absent, [Run] creates the static leaser from the configured primary
    flag, hostname and advertise URL.  When the HTTP server cannot listen,
    [Run] ends before any leaser is created. *)
Theorem Run_selects_leaser (W : World) (s : State) :
  Validate (this s) = None ->
  (occurrences is_NewLeaser (trace_of (Run W s)) <= 1)%nat /\
  (forall e, Server_Listen W = Some e ->
     filter is_leaser_step (trace_of (Run W s)) = []) /\
  (forall cc,
     Server_Listen W = None ->
     Consul (config (this s)) = Some cc ->
     (ConsulConfig.Hostname cc = EmptyString -> snd (os_Hostname W) = None) ->
     exists host adv l,
       filter is_leaser_step (trace_of (Run W s))
         = [EvNewConsulLeaser (ConsulConfig.URL cc) host adv; EvLeaserOpen l]) /\
  (forall cc e,
     Server_Listen W = None ->
     Consul (config (this s)) = Some cc ->
     ConsulConfig.Hostname cc = EmptyString ->
     snd (os_Hostname W) = Some e ->
     filter is_leaser_step (trace_of (Run W s)) = []) /\
  (Server_Listen W = None ->
   Consul (config (this s)) = None ->
   exists sc,
     Static (config (this s)) = Some sc /\
     filter is_leaser_step (trace_of (Run W s))
       = [EvNewStaticLeaser (StaticConfig.Primary sc)
            (StaticConfig.Hostname sc) (StaticConfig.AdvertiseURL sc)]).
Proof.
  intros Hvalid.
  assert (Hconsul : forall cc,
            Server_Listen W = None ->
            Consul (config (this s)) = Some cc ->
            (ConsulConfig.Hostname cc = EmptyString ->
             snd (os_Hostname W) = None) ->
            filter is_leaser_step (trace_of (Run W s))
            = [EvNewConsulLeaser (ConsulConfig.URL cc) (hostname_used W cc)
                 (advertiseURL_used W (this (state_at_leaser s)) cc);
               EvLeaserOpen (leaser_opened W (this (state_at_leaser s)) cc)]).
  { intros cc Hl Hcc Hlookup. rewrite Run_leaser_steps, Hl.
    now apply instantiateLeaser_consul with (srv := http.NewServer
      (HTTPConfig.Addr (HTTP (config (this s))))). }
  assert (Hnameless : forall cc e,
            Server_Listen W = None ->
            Consul (config (this s)) = Some cc ->
            ConsulConfig.Hostname cc = EmptyString ->
            snd (os_Hostname W) = Some e ->
            filter is_leaser_step (trace_of (Run W s)) = []).
  { intros cc e Hl Hcc Hh He. rewrite Run_leaser_steps, Hl.
    now apply instantiateLeaser_nameless with (cc := cc) (e := e). }
  assert (Hstatic : forall sc,
            Server_Listen W = None ->
            Consul (config (this s)) = None ->
            Static (config (this s)) = Some sc ->
            filter is_leaser_step (trace_of (Run W s))
            = [EvNewStaticLeaser (StaticConfig.Primary sc)
                 (StaticConfig.Hostname sc) (StaticConfig.AdvertiseURL sc)]).
  { intros sc Hl Hcc Hsc. rewrite Run_leaser_steps, Hl.
    now apply instantiateLeaser_static. }
  assert (Hbusy : forall e, Server_Listen W = Some e ->
            filter is_leaser_step (trace_of (Run W s)) = []).
  { intros e Hl. now rewrite Run_leaser_steps, Hl. }
  split; [| split; [exact Hbusy | split; [| split; [exact Hnameless |]]]].
  - rewrite occurrences_NewLeaser.
    destruct (Server_Listen W) as [e |] eqn:Hl.
    { rewrite (Hbusy e eq_refl). cbn. lia. }
    destruct (Validate_lease_mode _ Hvalid)
      as [(cc & Hcc & _) | (sc & Hcc & Hsc)].
    + destruct (String.eqb_spec (ConsulConfig.Hostname cc) EmptyString)
        as [Hh | Hh].
      * destruct (snd (os_Hostname W)) as [e |] eqn:He.
        { rewrite (Hnameless cc e eq_refl Hcc Hh eq_refl). cbn. lia. }
        rewrite (Hconsul cc eq_refl Hcc (fun _ => eq_refl)). cbn. lia.
      * rewrite (Hconsul cc eq_refl Hcc (fun H => False_ind _ (Hh H))).
        cbn. lia.
    + rewrite (Hstatic sc eq_refl Hcc Hsc). cbn. lia.
  - intros cc Hl Hcc Hlookup. rewrite (Hconsul cc Hl Hcc Hlookup). eauto.
  - intros Hl Hcc.
    destruct (Validate_lease_mode _ Hvalid)
      as [(cc & Hcc' & _) | (sc & _ & Hsc)]; [congruence |].
    exists sc. split; [exact Hsc | now apply Hstatic].
Qed.

Lemma Run_selects_leaser_witness :
  (exists host adv l,
     filter is_leaser_step
       (trace_of (Run good_world (start_state (consul_command "app"))))
       = [EvNewConsulLeaser "http://consul:8500" host adv; EvLeaserOpen l]) /\
  (exists sc,
     Static (config (this (start_state (static_command "app")))) = Some sc /\
     filter is_leaser_step
       (trace_of (Run good_world (start_state (static_command "app"))))
       = [EvNewStaticLeaser (StaticConfig.Primary sc)
            (StaticConfig.Hostname sc) (StaticConfig.AdvertiseURL sc)]) /\
  filter is_leaser_step
    (trace_of (Run busy_world (start_state (static_command "app")))) = [].
Proof.
  split; [| split].
  - apply (proj1 (proj2 (proj2 (Run_selects_leaser good_world
             (start_state (consul_command "app")) eq_refl))) sample_consul);
      reflexivity.
  - apply (proj2 (proj2 (proj2 (proj2 (Run_selects_leaser good_world
             (start_state (static_command "app")) eq_refl)))));
      reflexivity.
  - apply (proj1 (proj2 (Run_selects_leaser busy_world
             (start_state (static_command "app")) eq_refl)) address_in_use).
    reflexivity.
Defined.

(** C2 as stated fails: on a valid configuration, a run whose HTTP server
    cannot listen creates no leaser at all, and so does a consul run whose
    hostname lookup fails. *)
Lemma Run_may_create_no_leaser :
  (Validate (static_command "app") = None /\
   occurrences is_NewLeaser
     (trace_of (Run busy_world (start_state (static_command "app")))) = 0%nat /\
   result_of (Run busy_world (start_state (static_command "app")))
     = Err (ErrWrap "cannot init http server"
              (ErrWrap "cannot open http server" address_in_use))) /\
  (Validate (consul_command "app") = None /\
   occurrences is_NewLeaser
     (trace_of (Run nameless_world (start_state (consul_command "app"))))
     = 0%nat /\
   result_of (Run nameless_world (start_state (consul_command "app")))
     = Err (ErrWrap "cannot init consul" lookup_failed)).
Proof.
  repeat split.
Qed.

(** ** Publishing the [store] variable *)

(** One call of [openStore]: it publishes exactly when the flag is unset and
    it gets as far as [expvarOnce.Do], and the flag is set from then on. *)
Lemma openStore_call (W : World) (c : MountCommand) (g : Globals) :
  publications (trace_of (openStore W {| this := c; globals := g |}))
    = (if negb (expvarOnce g) && reaches_publish (W, c)
       then published_by (W, c) else []) /\
  expvarOnce (globals (state_of (openStore W {| this := c; globals := g |})))
    = expvarOnce g || reaches_publish (W, c).
Proof.
  unfold openStore, expvar_Publish, expvarOnce_Do, reaches_publish,
    published_by, publications, trace_of, state_of.
  unfold_monad. cbn.
  destruct (Store c) as [st0 |]; cbn.
  - destruct (Store_Open W); cbn.
    + destruct (expvarOnce g); split; reflexivity.
    + destruct (expvarOnce g) eqn:Hg; cbn; rewrite ?Hg;
        [split; reflexivity |].
      destruct (existsb _ _); cbn; split; reflexivity.
  - destruct (expvarOnce g); split; reflexivity.
Qed.

(** A call that does not get as far as [expvarOnce.Do] but has a Store ends
    with the error of [Store.Open]: the process goes on. *)
Lemma openStore_call_fails (W : World) (c : MountCommand) (g : Globals) :
  has_Store (W, c) = true -> reaches_publish (W, c) = false ->
  exists e st,
    openStore W {| this := c; globals := g |}
    = (Err e, {| this := st; globals := g |}, [EvStoreOpen
         (match Store c with
          | Some st0 => litefs.set_Leaser (Leaser c) st0
          | None => litefs.NewStore EmptyString false
          end)]).
Proof.
  unfold has_Store, reaches_publish, openStore. unfold_monad. cbn.
  destruct (Store c) as [st0 |]; [| discriminate]. intros _.
  destruct (Store_Open W) as [e |]; [| discriminate]. intros _.
  cbn. eauto.
Qed.

Lemma publications_app (t1 t2 : list Event) :
  publications (t1 ++ t2)%list = (publications t1 ++ publications t2)%list.
Proof. apply filter_app. Qed.

(** The trace of a sequence of calls, one call at a time. *)
Lemma openStore_calls_cons (W : World) (c : MountCommand)
    (rest : list (World * MountCommand)) (g : Globals) :
  exists t',
    snd (openStore_calls ((W, c) :: rest) g)
      = (trace_of (openStore W {| this := c; globals := g |}) ++ t')%list /\
    (t' = [] \/
     t' = snd (openStore_calls rest
                 (globals (state_of
                    (openStore W {| this := c; globals := g |}))))).
Proof.
  cbn [openStore_calls]. unfold trace_of, state_of.
  destruct (openStore W {| this := c; globals := g |}) as [[r s1] t1].
  cbn [fst snd].
  destruct r;
    try (destruct (openStore_calls rest (globals s1)) as [g' t'] eqn:E;
         exists t'; cbn; split; [reflexivity | now right]).
  exists []. cbn. rewrite app_nil_r. split; [reflexivity | now left].
Qed.

(** Once the flag is set nothing is published any more. *)
Lemma openStore_calls_done (calls : list (World * MountCommand)) (g : Globals) :
  expvarOnce g = true -> publications (snd (openStore_calls calls g)) = [].
Proof.
  revert g. induction calls as [| [W c] rest IH]; intros g Hg;
    [reflexivity |].
  destruct (openStore_calls_cons W c rest g) as (t' & -> & Ht').
  destruct (openStore_call W c g) as [Hpub Hflag].
  rewrite publications_app, Hpub, Hg. cbn.
  destruct Ht' as [-> | ->]; [reflexivity |].
  apply IH. rewrite Hflag, Hg. reflexivity.
Qed.

Lemma openStore_calls_at_most_once (calls : list (World * MountCommand))
    (g : Globals) :
  (length (publications (snd (openStore_calls calls g))) <= 1)%nat.
Proof.
  revert g. induction calls as [| [W c] rest IH]; intros g; [cbn; lia |].
  destruct (openStore_calls_cons W c rest g) as (t' & -> & Ht').
  destruct (openStore_call W c g) as [Hpub Hflag].
  rewrite publications_app, length_app, Hpub.
  destruct (negb (expvarOnce g) && reaches_publish (W, c)) eqn:Hfirst.
  - apply andb_prop in Hfirst as [_ Hreach].
    assert (Hlen : (length (published_by (W, c)) <= 1)%nat).
    { unfold published_by. destruct (Store (snd (W, c))); cbn; lia. }
    destruct Ht' as [-> | ->]; [cbn; lia |].
    rewrite openStore_calls_done; [cbn; lia |].
    rewrite Hflag, Hreach. apply orb_true_r.
  - destruct Ht' as [-> | ->]; [cbn; lia |]. cbn. apply IH.
Qed.

(** Calls that fail before [expvarOnce.Do] leave no publication and do not
    touch the package-level variables. *)
Lemma openStore_calls_skip (pre rest : list (World * MountCommand))
    (g : Globals) :
  forallb has_Store pre = true ->
  existsb reaches_publish pre = false ->
  publications (snd (openStore_calls (pre ++ rest)%list g))
    = publications (snd (openStore_calls rest g)).
Proof.
  induction pre as [| [W c] pre IH]; [reflexivity |].
  cbn [forallb existsb app]. intros Hall Hnone.
  apply andb_prop in Hall as [Hc Hall].
  apply orb_false_elim in Hnone as [Hnc Hnone].
  destruct (openStore_call_fails W c g Hc Hnc) as (e & st & Hrun).
  cbn [openStore_calls]. rewrite Hrun. cbn [globals].
  destruct (openStore_calls (pre ++ rest) g) as [g' t'] eqn:E.
  cbn [snd]. rewrite publications_app. cbn.
  exact (IH Hall Hnone).
Qed.

(** C5, as the code has it.  In one process, over every sequence of
    [openStore] calls on whatever commands, the [store] variable is published
    at most once: never when the package-level [expvarOnce] is already set,
    never when no call gets its Store opened, and otherwise by the first call
    whose Store opens and by no call after it.  The guard is the
    package-level [expvarOnce], shared by all commands of the process. *)
Theorem store_published_at_most_once (calls : list (World * MountCommand))
    (g : Globals) :
  (occurrences is_ExpvarPublish (snd (openStore_calls calls g)) <= 1)%nat /\
  (expvarOnce g = true ->
   publications (snd (openStore_calls calls g)) = []) /\
  (expvarOnce g = false ->
   forallb has_Store calls = true ->
   existsb reaches_publish calls = false ->
   publications (snd (openStore_calls calls g)) = []) /\
  (forall pre call post,
     calls = (pre ++ call :: post)%list ->
     expvarOnce g = false ->
     forallb has_Store pre = true ->
     existsb reaches_publish pre = false ->
     reaches_publish call = true ->
     publications (snd (openStore_calls calls g)) = published_by call /\
     length (published_by call) = 1%nat).
Proof.
  split; [apply openStore_calls_at_most_once |].
  split; [apply openStore_calls_done |].
  split.
  - intros _ Hall Hnone.
    rewrite <- (app_nil_r calls).
    now rewrite (openStore_calls_skip calls [] g Hall Hnone).
  - intros pre [W c] post -> Hg Hall Hnone Hreach.
    rewrite (openStore_calls_skip pre ((W, c) :: post) g Hall Hnone).
    destruct (openStore_calls_cons W c post g) as (t' & -> & Ht').
    destruct (openStore_call W c g) as [Hpub Hflag].
    rewrite publications_app, Hpub, Hg, Hreach. cbn [negb andb].
    assert (Hrest : publications t' = []).
    { destruct Ht' as [-> | ->]; [reflexivity |].
      apply openStore_calls_done. rewrite Hflag, Hreach. apply orb_true_r. }
    rewrite Hrest, app_nil_r. split; [reflexivity |].
    unfold published_by. unfold reaches_publish in Hreach.
    destruct (Store (snd (W, c))); [reflexivity | discriminate].
Qed.

Lemma store_published_at_most_once_witness :
  publications
    (snd (openStore_calls
            [(unopenable_world, first_command); (good_world, second_command);
             (good_world, first_command)]
            (fresh_globals [])))
    = published_by (good_world, second_command) /\
  length (published_by (good_world, second_command)) = 1%nat.
Proof.
  apply (proj2 (proj2 (proj2 (store_published_at_most_once
            [(unopenable_world, first_command); (good_world, second_command);
             (good_world, first_command)]
            (fresh_globals []))))
          [(unopenable_world, first_command)] (good_world, second_command)
          [(good_world, first_command)]);
    reflexivity.
Defined.

(** C5 as stated fails.  A sequence of calls in which no Store opens
    publishes nothing, so the publication does not happen exactly once; and
    a second command, which would publish on its own, publishes nothing after
    another command has: the guard is not an object owned by the caller. *)
Lemma store_publication_counterexample :
  occurrences is_ExpvarPublish
    (snd (openStore_calls [(unopenable_world, first_command)]
            (fresh_globals []))) = 0%nat /\
  publications
    (trace_of (openStore good_world
                 {| this := second_command; globals := fresh_globals [] |}))
    = published_by (good_world, second_command) /\
  publications
    (snd (openStore_calls
            [(good_world, first_command); (good_world, second_command)]
            (fresh_globals [])))
    = published_by (good_world, first_command).
Proof.
  repeat split.
Qed.

(** ** Shutdown *)

Lemma shutdown_step_close (W : World) (r : Runtime) :
  shutdown_step W CallClose r =
  (r, (call_on (HTTPServer (this (state r))) EvServerClose
       ++ call_on (FileSystem (this (state r))) EvFileSystemUnmount
       ++ call_on (Store (this (state r))) EvStoreClose)%list).
Proof.
  unfold shutdown_step. rewrite Close_run.
  now destruct r.
Qed.

Lemma shutdown_app (W : World) (p1 p2 : list ShutdownStep) (r : Runtime) :
  snd (shutdown W (p1 ++ p2)%list r) =
  (snd (shutdown W p1 r) ++ snd (shutdown W p2 (fst (shutdown W p1 r))))%list.
Proof.
  revert r. induction p1 as [| a p1 IH]; intros r; [reflexivity |].
  cbn [app shutdown].
  destruct (shutdown_step W a r) as [r1 t1].
  specialize (IH r1).
  destruct (shutdown W (p1 ++ p2) r1) as [r2 t2].
  destruct (shutdown W p1 r1) as [r3 t3].
  cbn [fst snd] in *. now rewrite IH, app_assoc.
Qed.

(** Without a cancellation nothing changes and nothing is killed. *)
Lemma shutdown_without_cancel (W : World) (p : list ShutdownStep)
    (r : Runtime) :
  existsb is_CancelContext p = false ->
  fst (shutdown W p r) = r /\
  forallb (fun e => negb (is_ProcessKill e)) (snd (shutdown W p r)) = true.
Proof.
  induction p as [| a p IH]; [intros _; split; reflexivity |].
  cbn [existsb]. intros H. apply orb_false_elim in H as [Ha Hp].
  destruct a; [discriminate |].
  cbn [shutdown]. rewrite shutdown_step_close.
  destruct (IH Hp) as [Hr Ht].
  destruct (shutdown W p r) as [r2 t2]. cbn [fst snd] in *.
  split; [exact Hr |].
  rewrite forallb_app, Ht, andb_true_r.
  destruct (HTTPServer (this (state r))), (FileSystem (this (state r))),
    (Store (this (state r))); reflexivity.
Qed.

(** C4, as the code has it.  [Close] closes the HTTP server, unmounts the
    file system and closes the Store, and never ends the subprocess; only the
    cancellation of the context does.  A shutdown that calls [Close] before
    it cancels the context closes the Store before the subprocess is killed;
    a shutdown that cancels the context first, while the subprocess runs,
    kills it before the Store is closed. *)
Theorem shutdown_order (W : World) (r : Runtime) :
  occurrences is_ProcessKill (trace_of (Close W (state r))) = 0%nat /\
  (forall p,
     existsb is_CancelContext p = false ->
     occurrences is_ProcessKill (snd (shutdown W p r)) = 0%nat) /\
  (forall p1 p2 st,
     Store (this (state r)) = Some st ->
     existsb is_CancelContext p1 = false ->
     each_preceded is_StoreClose is_ProcessKill
       (snd (shutdown W (p1 ++ CallClose :: p2)%list r))) /\
  (forall p,
     ctx_cancelled r = false ->
     child_running r = true ->
     each_preceded_from is_StoreClose is_ProcessKill false
       (snd (shutdown W (CancelContext :: p) r)) = false).
Proof.
  split; [| split; [| split]].
  - rewrite Close_run. unfold trace_of. cbn [snd].
    destruct (HTTPServer (this (state r))), (FileSystem (this (state r))),
      (Store (this (state r))); reflexivity.
  - intros p Hp. destruct (shutdown_without_cancel W p r Hp) as [_ Ht].
    unfold occurrences.
    rewrite (filter_none is_ProcessKill (fun e => negb (is_ProcessKill e)));
      [reflexivity | intros e H; now apply negb_true_iff in H | exact Ht].
  - intros p1 p2 st Hst Hp1.
    destruct (shutdown_without_cancel W p1 r Hp1) as [Hr Ht].
    apply each_preceded_decided.
    rewrite shutdown_app, Hr, each_preceded_from_app.
    rewrite (each_preceded_from_quiet _ _ _ _ Ht), andb_true_l.
    cbn [shutdown]. rewrite shutdown_step_close, Hst.
    destruct (shutdown W p2 r) as [r2 t2]. cbn [snd call_on].
    rewrite <- !app_assoc. cbn [app]. rewrite app_assoc.
    apply each_preceded_from_after; try reflexivity.
    destruct (HTTPServer (this (state r))), (FileSystem (this (state r)));
      reflexivity.
  - intros p Hc Hrun. cbn [shutdown shutdown_step]. rewrite Hc, Hrun.
    destruct (shutdown W p _) as [r2 t2]. reflexivity.
Qed.

Lemma shutdown_order_witness :
  each_preceded is_StoreClose is_ProcessKill
    (snd (shutdown good_world [CallClose; CancelContext] running_app)) /\
  snd (shutdown good_world [CallClose; CancelContext] running_app)
    = [EvServerClose; EvFileSystemUnmount; EvStoreClose;
       EvCtxCancel; EvProcessKill] /\
  each_preceded_from is_StoreClose is_ProcessKill false
    (snd (shutdown good_world [CancelContext; CallClose] running_app)) = false.
Proof.
  split; [| split].
  - eapply (proj1 (proj2 (proj2 (shutdown_order good_world running_app)))
              [] [CancelContext]); reflexivity.
  - reflexivity.
  - apply (proj2 (proj2 (proj2 (shutdown_order good_world running_app)))
             [CallClose]); reflexivity.
Defined.

(** C4 as stated fails.  After a run that has started the subcommand, the
    shutdown that cancels the context and then calls [Close] kills the
    subprocess before the Store is closed. *)
Lemma shutdown_kills_before_store_close :
  result_of (Run good_world (start_state (static_command "app"))) = Ok tt /\
  child_running running_app = true /\
  snd (shutdown good_world [CancelContext; CallClose] running_app)
    = [EvCtxCancel; EvProcessKill;
       EvServerClose; EvFileSystemUnmount; EvStoreClose] /\
  each_preceded_from is_StoreClose is_ProcessKill false
    (snd (shutdown good_world [CancelContext; CallClose] running_app)) = false.
Proof.
  repeat split.
Qed.

(** * Further properties of the command *)

(** ** [Run], stage by stage *)

(** The calls [Run] makes up to and including [Listen]. *)
Lemma Run_unfold (W : World) (s : State) :
  Run W s =
  let pre := [EvVersion;
              EvNewStore (DataDir (config (this s))) (Candidate (config (this s)));
              EvServerListen (HTTPConfig.Addr (HTTP (config (this s))))] in
  match Server_Listen W with
  | Some e =>
      (Err (ErrWrap "cannot init http server"
              (ErrWrap "cannot open http server" e)),
       state_of (initStore s), pre)
  | None =>
      let '(r, s', t) :=
        bind (instantiateLeaser W) (fun _ => Run_after_leaser W)
             (state_at_leaser s) in
      (r, s', (pre ++ t)%list)
  end.
Proof.
  unfold Run. fold (Run_after_leaser W).
  set (k := bind (instantiateLeaser W) (fun _ => Run_after_leaser W)).
  clearbody k.
  unfold state_at_leaser, state_of, initHTTPServer, initStore.
  unfold_monad. cbn.
  destruct (Server_Listen W) as [e |]; cbn; [reflexivity |].
  destruct (k _) as [[r s'] t]. reflexivity.
Qed.

(** Case analysis on a test, when the goal still depends on it. *)
Ltac case_on t :=
  match goal with
  | |- context [t] => destruct t eqn:?; cbn
  | _ => idtac
  end.

(** Unfolds [Run_after_leaser] on a state given field by field and goes
    through its tests in the order of the text. *)
Ltac cases_after_leaser W cfg g :=
  unfold Run_after_leaser, openStore, expvar_Publish, expvarOnce_Do,
    initFileSystem, HTTPServer_Serve, waitReady, execCmd,
    result_of, state_of, trace_of;
  unfold_monad; cbn;
  case_on (Store_Open W);
  case_on (expvarOnce g);
  case_on (existsb (fun kv : string * litefs.Store =>
                      String.eqb (fst kv) "store") (expvar_vars g));
  case_on (FileSystem_Mount W);
  case_on (ctx_Done W);
  case_on (Store_Ready W);
  case_on (select_picks_ctx W);
  case_on (String.eqb (Exec cfg) EmptyString);
  match goal with
  | |- context [shellwords_Parse W (Exec cfg)] =>
      destruct (shellwords_Parse W (Exec cfg)) as [[| name rest] [perr |]]
        eqn:?; cbn
  | _ => idtac
  end;
  case_on (Cmd_Start W).

(** Where [Run] can panic once the leaser is in place: in [expvar.Publish],
    when the name is taken, and in [execCmd], when the exec line has no
    word. *)
Lemma Run_after_leaser_panics (W : World) (s : State) (msg : string) :
  Store (this s) <> None -> HTTPServer (this s) <> None ->
  result_of (Run_after_leaser W s) = Panic msg ->
  (Store_Open W = None /\ expvarOnce (globals s) = false /\
   existsb (fun kv => String.eqb (fst kv) "store") (expvar_vars (globals s))
     = true)
  \/ (Exec (config (this s)) <> EmptyString /\
      shellwords_Parse W (Exec (config (this s))) = ([], None)).
Proof.
  destruct s as [[k cfg [st |] l fsys [srv |] fn] g]; cbn;
    try congruence.
  intros _ _. cases_after_leaser W cfg g; try discriminate; intros _.
  all: try (left; repeat split; reflexivity).
  all: right; split; try reflexivity;
    match goal with
    | H : String.eqb _ EmptyString = false |- _ =>
        now apply String.eqb_neq in H
    end.
Qed.

(** What [Run] can return as an error once the leaser is in place. *)
Lemma Run_after_leaser_errors (W : World) (s : State) (e : error) :
  Store (this s) <> None -> HTTPServer (this s) <> None ->
  result_of (Run_after_leaser W s) = Err e ->
  (exists x, Store_Open W = Some x /\ e = ErrWrap "cannot open store" x)
  \/ (exists x, FileSystem_Mount W = Some x /\
        e = ErrWrap "cannot init file system"
              (ErrNew ("cannot open file system: " ++ error_string x)))
  \/ (ctx_Done W = true /\ e = ctx_Err W)
  \/ (exists x, snd (shellwords_Parse W (Exec (config (this s)))) = Some x /\
        e = ErrWrap "cannot exec" (ErrWrap "cannot parse exec command" x))
  \/ (exists x, Cmd_Start W = Some x /\
        e = ErrWrap "cannot exec" (ErrWrap "cannot start exec command" x)).
Proof.
  destruct s as [[k cfg [st |] l fsys [srv |] fn] g]; cbn;
    try congruence.
  intros _ _. cases_after_leaser W cfg g; try discriminate;
    intros [= <-];
    repeat (first [ solve [left; eauto] | right ]); eauto.
Qed.

(** What [Run_after_leaser] leaves in the command: the Store and the HTTP
    server stay, and the file system is there exactly when [Mount] was called
    and succeeded. *)
Lemma Run_after_leaser_state (W : World) (s : State) (srv : http.Server) :
  Store (this s) <> None -> HTTPServer (this s) = Some srv ->
  Store (this (state_of (Run_after_leaser W s))) <> None /\
  HTTPServer (this (state_of (Run_after_leaser W s))) = Some srv /\
  FileSystem (this (state_of (Run_after_leaser W s)))
    = match FileSystem_Mount W with
      | None =>
          if existsb (fun e => match e with
                               | EvFileSystemMount _ => true
                               | _ => false
                               end) (trace_of (Run_after_leaser W s))
          then Some (fuse.NewFileSystem (MountDir (config (this s))))
          else FileSystem (this s)
      | Some _ => FileSystem (this s)
      end /\
  config (this (state_of (Run_after_leaser W s))) = config (this s).
Proof.
  destruct s as [[k cfg [st |] l fsys [srv' |] fn] g]; cbn;
    try congruence.
  intros _ [= ->]. cases_after_leaser W cfg g;
    repeat split; try discriminate; reflexivity.
Qed.

(** The outcomes of the leaser statement of [Run]: it keeps a leaser, or
    fails in [initConsul], or panics when no lease mode is configured; it
    touches nothing of the command but the leaser. *)
Lemma instantiateLeaser_outcome (W : World) (s : State) (srv : http.Server) :
  HTTPServer (this s) = Some srv ->
  (exists l,
     result_of (instantiateLeaser W s) = Ok tt /\
     state_of (instantiateLeaser W s)
       = {| this := set_Leaser (Some l) (this s); globals := globals s |})
  \/ (exists cc x,
        Consul (config (this s)) = Some cc /\
        result_of (instantiateLeaser W s) = Err (ErrWrap "cannot init consul" x) /\
        state_of (instantiateLeaser W s) = s /\
        ((ConsulConfig.Hostname cc = EmptyString /\
          snd (os_Hostname W) = Some x)
         \/ (exists y, Leaser_Open W = Some y /\
                       x = ErrWrap "cannot connect to consul" y)))
  \/ (Consul (config (this s)) = None /\ Static (config (this s)) = None /\
      result_of (instantiateLeaser W s) = Panic nil_dereference /\
      state_of (instantiateLeaser W s) = s).
Proof.
  intros Hsrv. unfold instantiateLeaser.
  rewrite result_bind, state_bind. cbn [get_this result_of state_of fst snd].
  destruct (Consul (config (this s))) as [cc |] eqn:Hcc.
  - rewrite result_wrap, state_wrap.
    destruct (String.eqb_spec (ConsulConfig.Hostname cc) EmptyString)
      as [Hh | Hh].
    + destruct (snd (os_Hostname W)) as [x |] eqn:Hx.
      * rewrite (initConsul_hostname_error W s cc x Hcc Hh Hx).
        right. left. exists cc, x. cbn. eauto 10.
      * rewrite (initConsul_run W s cc srv Hcc Hsrv (fun _ => Hx)). cbn zeta.
        destruct (Leaser_Open W) as [y |]; cbn.
        -- right. left. exists cc, (ErrWrap "cannot connect to consul" y).
           eauto 10.
        -- left. eauto.
    + rewrite (initConsul_run W s cc srv Hcc Hsrv
                 (fun H => False_ind _ (Hh H))). cbn zeta.
      destruct (Leaser_Open W) as [y |]; cbn.
      * right. left. exists cc, (ErrWrap "cannot connect to consul" y).
        eauto 10.
      * left. eauto.
  - destruct (Static (config (this s))) as [sc |]; cbn.
    + left. eauto.
    + right. right. auto.
Qed.

(** The result of [Run], stage by stage. *)
Lemma Run_result (W : World) (s : State) :
  result_of (Run W s) =
  match Server_Listen W with
  | Some e =>
      Err (ErrWrap "cannot init http server"
             (ErrWrap "cannot open http server" e))
  | None =>
      match result_of (instantiateLeaser W (state_at_leaser s)) with
      | Ok _ =>
          result_of (Run_after_leaser W
                       (state_of (instantiateLeaser W (state_at_leaser s))))
      | Err e => Err e
      | Panic msg => Panic msg
      | Blocked => Blocked
      end
  end.
Proof.
  rewrite Run_unfold. cbn zeta.
  destruct (Server_Listen W); [reflexivity |].
  pose proof (result_bind (instantiateLeaser W) (fun _ => Run_after_leaser W)
                (state_at_leaser s)) as H.
  destruct (bind _ _ _) as [[r s'] t]. exact H.
Qed.

(** The state [Run] leaves, stage by stage. *)
Lemma Run_state (W : World) (s : State) :
  state_of (Run W s) =
  match Server_Listen W with
  | Some e => state_of (initStore s)
  | None =>
      match result_of (instantiateLeaser W (state_at_leaser s)) with
      | Ok _ =>
          state_of (Run_after_leaser W
                      (state_of (instantiateLeaser W (state_at_leaser s))))
      | _ => state_of (instantiateLeaser W (state_at_leaser s))
      end
  end.
Proof.
  rewrite Run_unfold. cbn zeta.
  destruct (Server_Listen W); [reflexivity |].
  pose proof (state_bind (instantiateLeaser W) (fun _ => Run_after_leaser W)
                (state_at_leaser s)) as H.
  destruct (bind _ _ _) as [[r s'] t]. exact H.
Qed.

(** The trace of [Run], stage by stage. *)
Lemma Run_trace (W : World) (s : State) :
  trace_of (Run W s) =
  ([EvVersion;
    EvNewStore (DataDir (config (this s))) (Candidate (config (this s)));
    EvServerListen (HTTPConfig.Addr (HTTP (config (this s))))]
   ++ match Server_Listen W with
      | Some e => []
      | None =>
          trace_of (instantiateLeaser W (state_at_leaser s))
          ++ match result_of (instantiateLeaser W (state_at_leaser s)) with
             | Ok _ =>
                 trace_of (Run_after_leaser W
                             (state_of (instantiateLeaser W (state_at_leaser s))))
             | _ => []
             end
      end)%list.
Proof.
  rewrite Run_unfold. cbn zeta.
  destruct (Server_Listen W); [reflexivity |].
  pose proof (trace_bind (instantiateLeaser W) (fun _ => Run_after_leaser W)
                (state_at_leaser s)) as H.
  destruct (bind _ _ _) as [[r s'] t]. unfold trace_of in *. cbn [snd] in *. now rewrite H.
Qed.

(** ** Panics and errors of [Run] *)

(** X1. On a configuration accepted by [Validate], [Run] panics in two
    situations only: [Store.Open] has succeeded and the name [store] is
    already published while [expvarOnce] is unset, or the exec line is not
    empty and parses to no word (the index of [args[0]] is out of range). *)
Theorem Run_panics_only (W : World) (s : State) (msg : string) :
  Validate (this s) = None ->
  result_of (Run W s) = Panic msg ->
  (Store_Open W = None /\ expvarOnce (globals s) = false /\
   existsb (fun kv => String.eqb (fst kv) "store") (expvar_vars (globals s))
     = true)
  \/ (Exec (config (this s)) <> EmptyString /\
      shellwords_Parse W (Exec (config (this s))) = ([], None)).
Proof.
  intros Hvalid. rewrite Run_result.
  destruct (Server_Listen W); [discriminate |].
  destruct (instantiateLeaser_outcome W (state_at_leaser s)
              (http.NewServer (HTTPConfig.Addr (HTTP (config (this s)))))
              eq_refl)
    as [(l & Hr & Hs) | [(cc & x & _ & Hr & _) | (Hc & Hst & _)]].
  - rewrite Hr, Hs. intros H.
    apply Run_after_leaser_panics in H; [exact H | discriminate ..].
  - rewrite Hr. discriminate.
  - cbn in Hc, Hst.
    destruct (Validate_lease_mode _ Hvalid)
      as [(cc & Hcc & _) | (sc & _ & Hsc)]; congruence.
Qed.

Lemma Run_panics_only_witness :
  result_of (Run wordless_world (start_state (static_command "  ")))
    = Panic "index out of range [0] with length 0" /\
  ((Store_Open wordless_world = None /\
    expvarOnce (globals (start_state (static_command "  "))) = false /\
    existsb (fun kv => String.eqb (fst kv) "store")
      (expvar_vars (globals (start_state (static_command "  ")))) = true)
   \/ (Exec (config (this (start_state (static_command "  ")))) <> EmptyString /\
       shellwords_Parse wordless_world
         (Exec (config (this (start_state (static_command "  ")))))
       = ([], None))).
Proof.
  split; [reflexivity |].
  apply (Run_panics_only wordless_world (start_state (static_command "  "))
           "index out of range [0] with length 0");
    reflexivity.
Defined.

(** X2. [Run] does not check the lease mode itself.  With no lease mode
    configured it panics on a nil dereference once the HTTP server listens,
    before any leaser is created and before the Store is opened.  With both
    modes configured it goes the consul way: no static leaser is ever
    created. *)
Theorem Run_unvalidated_lease_mode (W : World) (s : State) :
  (Consul (config (this s)) = None -> Static (config (this s)) = None ->
   Server_Listen W = None ->
   result_of (Run W s) = Panic nil_dereference /\
   trace_of (Run W s)
     = [EvVersion;
        EvNewStore (DataDir (config (this s))) (Candidate (config (this s)));
        EvServerListen (HTTPConfig.Addr (HTTP (config (this s))))]) /\
  (forall cc p host adv,
     Consul (config (this s)) = Some cc ->
     In (EvNewStaticLeaser p host adv) (trace_of (Run W s)) -> False).
Proof.
  split.
  - intros Hc Hst Hl. rewrite Run_result, Run_trace, Hl.
    destruct (instantiateLeaser_outcome W (state_at_leaser s)
                (http.NewServer (HTTPConfig.Addr (HTTP (config (this s)))))
                eq_refl)
      as [(l & Hr & Hs) | [(cc & x & Hcc & _) | (_ & _ & Hr & _)]].
    + revert Hr. unfold instantiateLeaser.
      rewrite result_bind. cbn. rewrite Hc, Hst. discriminate.
    + cbn in Hcc. congruence.
    + rewrite Hr. split; [reflexivity |].
      unfold instantiateLeaser. rewrite trace_bind. cbn. rewrite Hc, Hst.
      reflexivity.
  - intros cc p host adv Hcc Hin.
    assert (Hf : In (EvNewStaticLeaser p host adv)
                   (filter is_leaser_step (trace_of (Run W s)))).
    { apply filter_In. split; [exact Hin | reflexivity]. }
    rewrite Run_leaser_steps in Hf.
    destruct (Server_Listen W); [exact Hf |].
    destruct (String.eqb_spec (ConsulConfig.Hostname cc) EmptyString)
      as [Hh | Hh].
    + destruct (snd (os_Hostname W)) as [x |] eqn:Hx.
      * rewrite (instantiateLeaser_nameless W (state_at_leaser s) cc x Hcc Hh Hx)
          in Hf.
        exact Hf.
      * rewrite (instantiateLeaser_consul W (state_at_leaser s) cc _ Hcc eq_refl
                   (fun _ => Hx))
          in Hf.
        destruct Hf as [Hf | [Hf | []]]; discriminate.
    + rewrite (instantiateLeaser_consul W (state_at_leaser s) cc _ Hcc eq_refl
                 (fun H => False_ind _ (Hh H))) in Hf.
      destruct Hf as [Hf | [Hf | []]]; discriminate.
Qed.

Lemma Run_unvalidated_lease_mode_witness :
  result_of (Run good_world (start_state modeless_command))
    = Panic nil_dereference /\
  trace_of (Run good_world (start_state modeless_command))
    = [EvVersion; EvNewStore "/var/lib/litefs" true; EvServerListen ":20202"] /\
  In (EvNewConsulLeaser "http://consul:8500" "node1" "http://node1:20202")
     (trace_of (Run good_world (start_state two_mode_command))).
Proof.
  destruct (proj1 (Run_unvalidated_lease_mode good_world
                     (start_state modeless_command))
              eq_refl eq_refl eq_refl) as [Hr Ht].
  split; [exact Hr |]. split; [exact Ht |].
  vm_compute. repeat (first [now left | right]).
Defined.

(** X3. Every error [Run] returns names the step that failed and wraps the
    error of the collaborator: the HTTP server's [Listen], the hostname
    lookup or the leaser's [Open] in [initConsul], [Store.Open], the file
    system's [Mount] (whose error is kept as text only), the exec line's
    parse, the subcommand's [Start]; or it is the context's error from the
    wait.  No error comes from [initStore]. *)
Theorem Run_errors (W : World) (s : State) (e : error) :
  result_of (Run W s) = Err e ->
  (exists x, Server_Listen W = Some x /\
     e = ErrWrap "cannot init http server"
           (ErrWrap "cannot open http server" x))
  \/ (exists x, snd (os_Hostname W) = Some x /\
        e = ErrWrap "cannot init consul" x)
  \/ (exists x, Leaser_Open W = Some x /\
        e = ErrWrap "cannot init consul"
              (ErrWrap "cannot connect to consul" x))
  \/ (exists x, Store_Open W = Some x /\ e = ErrWrap "cannot open store" x)
  \/ (exists x, FileSystem_Mount W = Some x /\
        e = ErrWrap "cannot init file system"
              (ErrNew ("cannot open file system: " ++ error_string x)))
  \/ (ctx_Done W = true /\ e = ctx_Err W)
  \/ (exists x, snd (shellwords_Parse W (Exec (config (this s)))) = Some x /\
        e = ErrWrap "cannot exec" (ErrWrap "cannot parse exec command" x))
  \/ (exists x, Cmd_Start W = Some x /\
        e = ErrWrap "cannot exec" (ErrWrap "cannot start exec command" x)).
Proof.
  rewrite Run_result.
  destruct (Server_Listen W) as [x |]; [intros [= <-]; left; eauto |].
  destruct (instantiateLeaser_outcome W (state_at_leaser s)
              (http.NewServer (HTTPConfig.Addr (HTTP (config (this s)))))
              eq_refl)
    as [(l & Hr & Hs) | [(cc & x & _ & Hr & _ & Hx) | (_ & _ & Hr & _)]].
  - rewrite Hr, Hs. intros H.
    apply Run_after_leaser_errors in H; [| discriminate ..].
    cbn [this config set_Leaser state_at_leaser] in H.
    do 3 right. exact H.
  - rewrite Hr. intros [= <-].
    destruct Hx as [[_ Hx] | (y & Hy & ->)].
    + right. left. eauto.
    + right. right. left. eauto.
  - rewrite Hr. discriminate.
Qed.

Lemma Run_errors_witness :
  result_of (Run unmountable_world (start_state (static_command "app")))
    = Err (ErrWrap "cannot init file system"
             (ErrNew "cannot open file system: permission denied")) /\
  exists x,
    FileSystem_Mount unmountable_world = Some x /\
    ErrWrap "cannot init file system"
      (ErrNew "cannot open file system: permission denied")
    = ErrWrap "cannot init file system"
        (ErrNew ("cannot open file system: " ++ error_string x)).
Proof.
  split; [reflexivity |].
  destruct (Run_errors unmountable_world (start_state (static_command "app"))
              (ErrWrap "cannot init file system"
                 (ErrNew "cannot open file system: permission denied"))
              eq_refl)
    as [(x & H & _) | [(x & H & _) | [(x & H & _) | [(x & H & _) |
        [H | [(H & _) | [(x & _ & H) | (x & H & _)]]]]]]];
    try discriminate.
  exact H.
Defined.

(** ** What [Run] leaves for [Close] *)

Lemma instantiateLeaser_no_mount (W : World) :
  emits_only (fun e => not_FileSystemMount e && not_exec_step e)
    (instantiateLeaser W).
Proof.
  unfold instantiateLeaser, initConsul, HTTPServer_Port. emits.
Qed.

Lemma existsb_none (P Q : Event -> bool) (tr : list Event) :
  (forall e, Q e = true -> P e = false) ->
  forallb Q tr = true -> existsb P tr = false.
Proof.
  intros HPQ. induction tr as [| e tr IH]; cbn; [reflexivity |].
  intros H. apply andb_prop in H as [He Htr].
  now rewrite (HPQ e He), IH.
Qed.

Lemma instantiateLeaser_mounts_nothing (W : World) (s : State) :
  existsb is_FileSystemMount (trace_of (instantiateLeaser W s)) = false.
Proof.
  apply existsb_none
    with (Q := fun e => not_FileSystemMount e && not_exec_step e);
    [| apply instantiateLeaser_no_mount].
  intros e H. apply andb_prop in H as [H _]. now apply negb_true_iff in H.
Qed.

(** X4. [Close] after [Run], on a command that was new, closes what [Run]
    has brought up and nothing else: the HTTP server when [Listen] succeeded,
    the file system when [Mount] was called and succeeded, and the Store in
    every case, also when [Store.Open] failed or was never called. *)
Theorem Close_after_Run (W W' : World) (s : State) :
  HTTPServer (this s) = None -> FileSystem (this s) = None ->
  trace_of (Close W' (state_of (Run W s))) =
  ((if succeeded (Server_Listen W) then [EvServerClose] else [])
   ++ (if existsb is_FileSystemMount (trace_of (Run W s))
          && succeeded (FileSystem_Mount W)
       then [EvFileSystemUnmount] else [])
   ++ [EvStoreClose])%list.
Proof.
  intros Hsrv Hfs. rewrite Close_run, Run_state, Run_trace.
  unfold trace_of at 1. cbn [snd].
  destruct (Server_Listen W) as [x |]; cbn [succeeded].
  { cbn. rewrite Hsrv, Hfs. reflexivity. }
  rewrite existsb_app. cbn [existsb is_FileSystemMount orb].
  rewrite existsb_app, instantiateLeaser_mounts_nothing. cbn [orb].
  destruct (instantiateLeaser_outcome W (state_at_leaser s)
              (http.NewServer (HTTPConfig.Addr (HTTP (config (this s)))))
              eq_refl)
    as [(l & Hr & Hs) | [(cc & x & _ & Hr & Hs & _) | (_ & _ & Hr & Hs)]];
    rewrite Hr, Hs.
  - destruct (Run_after_leaser_state W
                {| this := set_Leaser (Some l) (this (state_at_leaser s));
                   globals := globals (state_at_leaser s) |}
                (http.NewServer (HTTPConfig.Addr (HTTP (config (this s))))))
      as (Hst & Hh & Hf & _); [discriminate | reflexivity |].
    rewrite Hh, Hf. cbn [call_on].
    destruct (Store (this (state_of (Run_after_leaser W _))));
      [| congruence].
    cbn [this set_Leaser state_at_leaser FileSystem set_HTTPServer state_of
         initStore].
    change (fun e : Event =>
              match e with EvFileSystemMount _ => true | _ => false end)
      with is_FileSystemMount.
    destruct (FileSystem_Mount W); cbn [succeeded].
    + rewrite andb_false_r. cbn. now rewrite Hfs.
    + rewrite andb_true_r.
      destruct (existsb is_FileSystemMount _); [reflexivity |].
      cbn. now rewrite Hfs.
  - cbn. rewrite Hfs. reflexivity.
  - cbn. rewrite Hfs. reflexivity.
Qed.

Lemma Close_after_Run_witness :
  trace_of (Close good_world
              (state_of (Run unmountable_world
                           (start_state (static_command "app")))))
    = [EvServerClose; EvStoreClose] /\
  trace_of (Close good_world
              (state_of (Run busy_world (start_state (static_command "app")))))
    = [EvStoreClose].
Proof.
  split.
  - exact (Close_after_Run unmountable_world good_world
             (start_state (static_command "app")) eq_refl eq_refl).
  - exact (Close_after_Run busy_world good_world
             (start_state (static_command "app")) eq_refl eq_refl).
Defined.

(** ** The subcommand of a successful [Run] *)

Lemma Run_after_leaser_ok (W : World) (s : State) :
  Store (this s) <> None -> HTTPServer (this s) <> None ->
  result_of (Run_after_leaser W s) = Ok tt ->
  if String.eqb (Exec (config (this s))) EmptyString then
    filter is_exec_step (trace_of (Run_after_leaser W s)) = [] /\
    cmd (this (state_of (Run_after_leaser W s))) = cmd (this s)
  else
    exists name rest,
      shellwords_Parse W (Exec (config (this s))) = (name :: rest, None) /\
      Cmd_Start W = None /\
      filter is_exec_step (trace_of (Run_after_leaser W s))
        = [EvShellParse (Exec (config (this s)));
           EvCmdStart (exec.CommandContext name rest); EvGoWait] /\
      cmd (this (state_of (Run_after_leaser W s)))
        = Some (exec.started (exec.CommandContext name rest)).
Proof.
  destruct s as [[k cfg [st |] l fsys [srv |] fn] g]; cbn;
    try congruence.
  intros _ _. cases_after_leaser W cfg g; try discriminate; intros _;
    try (split; reflexivity); eauto 10.
Qed.

(** X5. After a run that returns [nil], the subcommand runs exactly when an
    exec line is configured.  Without one nothing is parsed or started and
    the command keeps no subprocess of this run; with one, the line is
    parsed once, the first word is started as the program with the other
    words as its arguments, one goroutine waits for it, and the command
    holds the started process. *)
Theorem Run_ok_subcommand (W : World) (s : State) :
  result_of (Run W s) = Ok tt ->
  (Exec (config (this s)) = EmptyString ->
   filter is_exec_step (trace_of (Run W s)) = [] /\
   cmd (this (state_of (Run W s))) = cmd (this s)) /\
  (Exec (config (this s)) <> EmptyString ->
   exists name rest,
     shellwords_Parse W (Exec (config (this s))) = (name :: rest, None) /\
     filter is_exec_step (trace_of (Run W s))
       = [EvShellParse (Exec (config (this s)));
          EvCmdStart (exec.CommandContext name rest); EvGoWait] /\
     cmd (this (state_of (Run W s)))
       = Some (exec.started (exec.CommandContext name rest)) /\
     child_started (this (state_of (Run W s))) = true).
Proof.
  rewrite Run_result, Run_state, Run_trace.
  destruct (Server_Listen W); [discriminate |].
  assert (Hquiet : filter is_exec_step
                     (trace_of (instantiateLeaser W (state_at_leaser s))) = []).
  { apply filter_none
      with (Q := fun e => not_FileSystemMount e && not_exec_step e);
      [| apply instantiateLeaser_no_mount].
    intros e H. apply andb_prop in H as [_ H]. now apply negb_true_iff in H. }
  rewrite !filter_app, Hquiet. cbn [filter is_exec_step app].
  destruct (instantiateLeaser_outcome W (state_at_leaser s)
              (http.NewServer (HTTPConfig.Addr (HTTP (config (this s)))))
              eq_refl)
    as [(l & Hr & Hs) | [(cc & x & _ & Hr & _) | (_ & _ & Hr & _)]];
    rewrite Hr; try discriminate.
  rewrite Hs.
  set (s3 := {| this := set_Leaser (Some l) (this (state_at_leaser s));
                globals := globals (state_at_leaser s) |}).
  intros Hok.
  apply Run_after_leaser_ok in Hok; [| discriminate ..].
  change (config (this s3)) with (config (this s)) in Hok.
  change (cmd (this s3)) with (cmd (this s)) in Hok.
  destruct (String.eqb_spec (Exec (config (this s))) EmptyString) as [He | He].
  - split; [intros _; exact Hok | contradiction].
  - split; [contradiction | intros _].
    destruct Hok as (name & rest & Hp & _ & Ht & Hc).
    exists name, rest. repeat split; try assumption.
    unfold child_started. now rewrite Hc.
Qed.

Lemma Run_ok_subcommand_witness :
  exists name rest,
    shellwords_Parse good_world "app" = (name :: rest, None) /\
    filter is_exec_step
      (trace_of (Run good_world (start_state (static_command "app"))))
      = [EvShellParse "app"; EvCmdStart (exec.CommandContext name rest);
         EvGoWait] /\
    cmd (this (state_of (Run good_world (start_state (static_command "app")))))
      = Some (exec.started (exec.CommandContext name rest)) /\
    child_started
      (this (state_of (Run good_world (start_state (static_command "app")))))
      = true.
Proof.
  apply (proj2 (Run_ok_subcommand good_world
                  (start_state (static_command "app")) eq_refl)).
  discriminate.
Defined.

(** ** The order of the steps in every run *)

Section Guarded.

Variables P Q : Event -> bool.

Context {A B : Type}.

(** A part that makes no [Q] call, followed by parts that are guarded. *)
Lemma guarded_bind (m : M A) (k : A -> M B) :
  emits_only (fun e => negb (Q e)) m ->
  (forall a, guarded P Q (k a)) ->
  guarded P Q (bind m k).
Proof.
  intros Hm Hk s. rewrite trace_bind, each_preceded_from_app.
  rewrite (each_preceded_from_quiet _ _ _ _ (Hm s)), andb_true_l.
  destruct (result_of (m s)); try reflexivity.
  apply each_preceded_from_mono, Hk.
Qed.

(** A part that makes no [Q] call and, when it succeeds, has made a [P]
    call: whatever follows is guarded. *)
Lemma guarded_bind_after (m : M A) (k : A -> M B) :
  emits_only (fun e => negb (Q e)) m ->
  (forall s a, result_of (m s) = Ok a -> existsb P (trace_of (m s)) = true) ->
  guarded P Q (bind m k).
Proof.
  intros Hm HP s. rewrite trace_bind, each_preceded_from_app.
  rewrite (each_preceded_from_quiet _ _ _ _ (Hm s)), andb_true_l.
  destruct (result_of (m s)) as [a | e | msg |] eqn:Hr; try reflexivity.
  rewrite (HP s a Hr). apply each_preceded_from_seen.
Qed.

End Guarded.

Lemma existsb_wrap {A : Type} (P : Event -> bool) (prefix : string) (m : M A) :
  (forall s a, result_of (m s) = Ok a -> existsb P (trace_of (m s)) = true) ->
  forall s a, result_of (wrap prefix m s) = Ok a ->
              existsb P (trace_of (wrap prefix m s)) = true.
Proof.
  intros H s a Hok. rewrite trace_wrap. apply (H s a).
  now apply wrap_ok_inv in Hok.
Qed.

Lemma initHTTPServer_listens (W : World) (s : State) (a : unit) :
  result_of (initHTTPServer W s) = Ok a ->
  existsb is_ServerListen (trace_of (initHTTPServer W s)) = true.
Proof.
  rewrite initHTTPServer_run. now destruct (Server_Listen W).
Qed.

Lemma initConsul_ok_creates (W : World) (s : State) (a : unit) :
  result_of (initConsul W s) = Ok a ->
  existsb is_NewLeaser (trace_of (initConsul W s)) = true.
Proof.
  unfold initConsul, HTTPServer_Port, trace_of, result_of.
  unfold_monad. cbn.
  destruct (Consul (config (this s))) as [cc |]; cbn; [| discriminate].
  destruct (String.eqb (ConsulConfig.Hostname cc) EmptyString); cbn.
  - destruct (snd (os_Hostname W)); cbn; [discriminate |].
    destruct (AdvertiseURLFn (this s)) as [f |]; cbn;
      match goal with
      | |- context [String.eqb ?x EmptyString && negb ?b] =>
          destruct (String.eqb x EmptyString && negb b); cbn
      end;
      destruct (HTTPServer (this s)); cbn;
      destruct (Leaser_Open W); cbn; try discriminate; reflexivity.
  - destruct (AdvertiseURLFn (this s)) as [f |]; cbn;
      match goal with
      | |- context [String.eqb ?x EmptyString && negb ?b] =>
          destruct (String.eqb x EmptyString && negb b); cbn
      end;
      destruct (HTTPServer (this s)); cbn;
      destruct (Leaser_Open W); cbn; try discriminate; reflexivity.
Qed.

Lemma instantiateLeaser_ok_creates (W : World) (s : State) (a : unit) :
  result_of (instantiateLeaser W s) = Ok a ->
  existsb is_NewLeaser (trace_of (instantiateLeaser W s)) = true.
Proof.
  unfold instantiateLeaser. rewrite result_bind, trace_bind.
  cbn [get_this result_of trace_of state_of fst snd app].
  destruct (Consul (config (this s))).
  - rewrite trace_wrap. intros H. apply wrap_ok_inv in H.
    now apply initConsul_ok_creates in H.
  - destruct (Static (config (this s))); [reflexivity | discriminate].
Qed.

Lemma openStore_ok_opens (W : World) (s : State) (a : unit) :
  result_of (openStore W s) = Ok a ->
  existsb is_StoreOpen (trace_of (openStore W s)) = true.
Proof.
  unfold openStore, trace_of, result_of. unfold_monad. cbn.
  destruct (Store (this s)); cbn; [| discriminate].
  destruct (Store_Open W); cbn; [discriminate |].
  unfold expvarOnce_Do, expvar_Publish. unfold_monad. cbn.
  destruct (expvarOnce (globals s)); cbn; [reflexivity |].
  destruct (existsb _ _); reflexivity.
Qed.

Lemma initFileSystem_ok_mounts (W : World) (s : State) (a : unit) :
  result_of (initFileSystem W s) = Ok a ->
  existsb is_FileSystemMount (trace_of (initFileSystem W s)) = true.
Proof.
  unfold initFileSystem, trace_of, result_of. unfold_monad. cbn.
  destruct (FileSystem_Mount W); cbn; [reflexivity |].
  destruct (Store (this s)); reflexivity.
Qed.

Lemma HTTPServer_Serve_ok_serves (s : State) (a : unit) :
  result_of (HTTPServer_Serve s) = Ok a ->
  existsb is_ServerServe (trace_of (HTTPServer_Serve s)) = true.
Proof.
  unfold HTTPServer_Serve, trace_of, result_of. unfold_monad. cbn.
  destruct (HTTPServer (this s)); [reflexivity | discriminate].
Qed.

(** Unfolds the steps of [Run] down to the calls. *)
Ltac unfold_steps :=
  unfold initStore, initHTTPServer, instantiateLeaser, initConsul,
    HTTPServer_Port, openStore, expvar_Publish, initFileSystem,
    HTTPServer_Serve, waitReady, execCmd.

(** Goes past one part of [Run] that makes no call of the guarded kind. *)
Ltac pass_quiet :=
  apply guarded_bind; [solve [unfold_steps; emits] | intros _].

Lemma Run_listen_before_leaser (W : World) :
  guarded is_ServerListen is_NewLeaser (Run W).
Proof.
  unfold Run. do 2 pass_quiet.
  apply guarded_bind_after; [unfold_steps; emits |].
  apply existsb_wrap, initHTTPServer_listens.
Qed.

Lemma Run_leaser_before_open (W : World) :
  guarded is_NewLeaser is_StoreOpen (Run W).
Proof.
  unfold Run. do 3 pass_quiet.
  apply guarded_bind_after; [unfold_steps; emits |].
  apply instantiateLeaser_ok_creates.
Qed.

Lemma Run_open_before_mount (W : World) :
  guarded is_StoreOpen is_FileSystemMount (Run W).
Proof.
  unfold Run. do 4 pass_quiet.
  apply guarded_bind_after; [unfold_steps; emits |].
  apply existsb_wrap, openStore_ok_opens.
Qed.

Lemma Run_mount_before_serve (W : World) :
  guarded is_FileSystemMount is_ServerServe (Run W).
Proof.
  unfold Run. do 5 pass_quiet.
  apply guarded_bind_after; [unfold_steps; emits |].
  apply existsb_wrap, initFileSystem_ok_mounts.
Qed.

Lemma Run_serve_before_select (W : World) :
  guarded is_ServerServe is_Select (Run W).
Proof.
  unfold Run. do 6 pass_quiet.
  apply guarded_bind_after; [unfold_steps; emits |].
  apply HTTPServer_Serve_ok_serves.
Qed.

Lemma Run_after_leaser_opens (W : World) (s : State) (st : litefs.Store) :
  In (EvStoreOpen st) (trace_of (Run_after_leaser W s)) ->
  litefs.Leaser_ st = Leaser (this s).
Proof.
  destruct s as [[k cfg [st0 |] l fsys [srv |] fn] g].
  - cases_after_leaser W cfg g; intros H;
      repeat (destruct H as [H | H];
              [try discriminate; try (injection H as <-; reflexivity) |]);
      contradiction.
  - unfold Run_after_leaser, openStore, initFileSystem, trace_of.
    unfold_monad. cbn.
    destruct (Store_Open W); cbn;
      [| unfold expvarOnce_Do, expvar_Publish; unfold_monad; cbn;
         destruct (expvarOnce g); cbn; [| destruct (existsb _ _); cbn];
         destruct (FileSystem_Mount W); cbn ];
      intros H;
      repeat (destruct H as [H | H];
              [try discriminate; try (injection H as <-; reflexivity) |]);
      contradiction.
  - unfold Run_after_leaser, openStore, trace_of. unfold_monad. cbn.
    intros [].
  - unfold Run_after_leaser, openStore, trace_of. unfold_monad. cbn.
    intros [].
Qed.

Lemma instantiateLeaser_opens_nothing (W : World) (s : State)
    (st : litefs.Store) :
  In (EvStoreOpen st) (trace_of (instantiateLeaser W s)) -> False.
Proof.
  intros Hin.
  assert (H : emits_only (fun e => negb (is_StoreOpen e)) (instantiateLeaser W))
    by (unfold_steps; emits).
  specialize (H s). rewrite forallb_forall in H. specialize (H _ Hin).
  discriminate.
Qed.

(** X6. In every run, also one that fails on the way, no startup step is
    taken before the one it depends on: a leaser is created only after the
    HTTP server has been asked to listen, the Store is opened only after a
    leaser has been created, the file system is mounted only after the Store
    has been opened, the HTTP server serves only after the mount, and [Run]
    waits only after the server serves.  The Store is never opened without a
    leaser assigned to it. *)
Theorem Run_steps_in_order (W : World) (s : State) :
  each_preceded is_ServerListen is_NewLeaser (trace_of (Run W s)) /\
  each_preceded is_NewLeaser is_StoreOpen (trace_of (Run W s)) /\
  each_preceded is_StoreOpen is_FileSystemMount (trace_of (Run W s)) /\
  each_preceded is_FileSystemMount is_ServerServe (trace_of (Run W s)) /\
  each_preceded is_ServerServe is_Select (trace_of (Run W s)) /\
  (forall st, In (EvStoreOpen st) (trace_of (Run W s)) ->
              exists l, litefs.Leaser_ st = Some l).
Proof.
  repeat split;
    try (apply each_preceded_decided;
         first [ apply Run_listen_before_leaser
               | apply Run_leaser_before_open
               | apply Run_open_before_mount
               | apply Run_mount_before_serve
               | apply Run_serve_before_select ]).
  intros st. rewrite Run_trace. intros Hin.
  apply in_app_or in Hin as [Hin | Hin].
  { destruct Hin as [H | [H | [H | []]]]; discriminate. }
  destruct (Server_Listen W); [contradiction |].
  apply in_app_or in Hin as [Hin | Hin].
  { destruct (instantiateLeaser_opens_nothing W _ st Hin). }
  destruct (instantiateLeaser_outcome W (state_at_leaser s)
              (http.NewServer (HTTPConfig.Addr (HTTP (config (this s)))))
              eq_refl)
    as [(l & Hr & Hs) | [(cc & x & _ & Hr & _) | (_ & _ & Hr & _)]];
    rewrite Hr in Hin; try contradiction.
  rewrite Hs in Hin. apply Run_after_leaser_opens in Hin.
  exists l. exact Hin.
Qed.

Lemma Run_steps_in_order_witness :
  each_preceded is_NewLeaser is_StoreOpen
    (trace_of (Run unopenable_world (start_state (static_command "app")))) /\
  occurrences is_StoreOpen
    (trace_of (Run unopenable_world (start_state (static_command "app"))))
    = 1%nat /\
  result_of (Run unopenable_world (start_state (static_command "app")))
    = Err (ErrWrap "cannot open store" permission_denied).
Proof.
  split; [| split; reflexivity].
  apply (proj1 (proj2 (Run_steps_in_order unopenable_world
                         (start_state (static_command "app"))))).
Defined.

(** ** [expvarOnce] keeps [openStore] from panicking *)

(** One call, from package-level variables that agree. *)
Lemma openStore_keeps_agreement (W : World) (c : MountCommand) (g : Globals) :
  once_agrees g -> has_Store (W, c) = true ->
  result_of (openStore W {| this := c; globals := g |}) = open_answer (W, c) /\
  once_agrees (globals (state_of (openStore W {| this := c; globals := g |}))).
Proof.
  unfold once_agrees, store_unpublished, has_Store, open_answer, openStore,
    expvarOnce_Do, expvar_Publish, result_of, state_of.
  unfold_monad. cbn.
  destruct (Store c) as [st |]; [| discriminate]. intros Hg _. cbn.
  destruct (Store_Open W); cbn; [split; [reflexivity | exact Hg] |].
  destruct (expvarOnce g) eqn:Honce; cbn; rewrite ?Honce.
  - split; [reflexivity | discriminate].
  - specialize (Hg eq_refl). apply negb_true_iff in Hg. rewrite Hg. cbn.
    split; [reflexivity | discriminate].
Qed.

(** X7. In a process whose package-level variables agree (nothing has
    published [store] while [expvarOnce] is unset), no sequence of
    [openStore] calls on commands that have a Store ever panics in
    [expvar.Publish]: every call returns, [nil] when its [Store.Open]
    succeeded and the error of [Store.Open] otherwise, and the variables
    agree again afterwards. *)
Theorem openStore_calls_never_panic (calls : list (World * MountCommand))
    (g : Globals) :
  once_agrees g ->
  forallb has_Store calls = true ->
  openStore_results calls g = map open_answer calls /\
  once_agrees (fst (openStore_calls calls g)).
Proof.
  revert g. induction calls as [| [W c] rest IH]; intros g Hg Hall.
  - split; [reflexivity | exact Hg].
  - cbn [forallb] in Hall. apply andb_prop in Hall as [Hc Hrest].
    destruct (openStore_keeps_agreement W c g Hg Hc) as [Hr Hg'].
    cbn [openStore_results openStore_calls map].
    unfold result_of, state_of in Hr, Hg'.
    destruct (openStore W {| this := c; globals := g |}) as [[r s1] t1].
    cbn [fst snd] in Hr, Hg'. subst r.
    destruct (IH (globals s1) Hg' Hrest) as [IHr IHg].
    unfold open_answer in *. cbn [fst] in *.
    destruct (Store_Open W);
      destruct (openStore_calls rest (globals s1)) as [g' t'];
      cbn [fst] in *; (split; [now rewrite IHr | exact IHg]).
Qed.

Lemma openStore_calls_never_panic_witness :
  openStore_results
    [(good_world, first_command); (unopenable_world, second_command);
     (good_world, second_command)]
    (fresh_globals [])
  = [Ok tt; Err permission_denied; Ok tt] /\
  once_agrees
    (fst (openStore_calls
            [(good_world, first_command); (unopenable_world, second_command);
             (good_world, second_command)]
            (fresh_globals []))).
Proof.
  apply (openStore_calls_never_panic
           [(good_world, first_command); (unopenable_world, second_command);
            (good_world, second_command)]
           (fresh_globals [])).
  - intros _. reflexivity.
  - reflexivity.
Defined.

(** ** The subprocess in every run *)

Lemma Run_after_leaser_subprocess (W : World) (s : State) :
  Store (this s) <> None -> HTTPServer (this s) <> None ->
  cmd (this s) = None ->
  (occurrences is_CmdStart (trace_of (Run_after_leaser W s)) <= 1)%nat /\
  occurrences is_GoWait (trace_of (Run_after_leaser W s))
    = (if child_started (this (state_of (Run_after_leaser W s)))
       then 1%nat else 0%nat) /\
  (child_started (this (state_of (Run_after_leaser W s))) = true ->
   result_of (Run_after_leaser W s) = Ok tt).
Proof.
  destruct s as [[k cfg [st |] l fsys [srv |] fn] g]; cbn;
    try congruence.
  intros _ _ ->. cases_after_leaser W cfg g;
    repeat split; try reflexivity; try discriminate; cbn; lia.
Qed.

Lemma instantiateLeaser_quiet (W : World) (s : State) (P : Event -> bool) :
  (forall e, not_FileSystemMount e && not_exec_step e = true -> P e = false) ->
  filter P (trace_of (instantiateLeaser W s)) = [].
Proof.
  intros HP.
  apply filter_none
    with (Q := fun e => not_FileSystemMount e && not_exec_step e);
    [exact HP | apply instantiateLeaser_no_mount].
Qed.

(** X8. In every run on a command that holds no subprocess yet, at most one
    subprocess is started; the goroutine that waits for it is spawned
    exactly when the command ends up holding a started process; and the
    command holds a started process only when [Run] has returned [nil]. *)
Theorem Run_subprocess_accounting (W : World) (s : State) :
  cmd (this s) = None ->
  (occurrences is_CmdStart (trace_of (Run W s)) <= 1)%nat /\
  occurrences is_GoWait (trace_of (Run W s))
    = (if child_started (this (state_of (Run W s))) then 1%nat else 0%nat) /\
  (child_started (this (state_of (Run W s))) = true ->
   result_of (Run W s) = Ok tt).
Proof.
  intros Hcmd. rewrite Run_result, Run_state, Run_trace.
  unfold occurrences. rewrite !filter_app.
  cbn [filter is_CmdStart is_GoWait app].
  destruct (Server_Listen W).
  { unfold child_started. cbn. rewrite Hcmd. repeat split; try lia;
      try discriminate. }
  rewrite !filter_app.
  rewrite (instantiateLeaser_quiet W _ is_CmdStart),
    (instantiateLeaser_quiet W _ is_GoWait);
    try (intros e H; apply andb_prop in H as [_ H];
         destruct e; try reflexivity; discriminate).
  cbn [app].
  destruct (instantiateLeaser_outcome W (state_at_leaser s)
              (http.NewServer (HTTPConfig.Addr (HTTP (config (this s)))))
              eq_refl)
    as [(l & Hr & Hs) | [(cc & x & _ & Hr & Hs & _) | (_ & _ & Hr & Hs)]];
    rewrite Hr, Hs.
  - apply Run_after_leaser_subprocess; try discriminate. exact Hcmd.
  - unfold child_started. cbn. rewrite Hcmd. repeat split; try lia;
      try discriminate.
  - unfold child_started. cbn. rewrite Hcmd. repeat split; try lia;
      try discriminate.
Qed.

Lemma Run_subprocess_accounting_witness :
  (occurrences is_CmdStart
     (trace_of (Run good_world (start_state (static_command "app")))) <= 1)%nat /\
  occurrences is_GoWait
    (trace_of (Run good_world (start_state (static_command "app")))) = 1%nat /\
  result_of (Run good_world (start_state (static_command "app"))) = Ok tt.
Proof.
  destruct (Run_subprocess_accounting good_world
              (start_state (static_command "app")) eq_refl)
    as (Hstart & Hwait & Hok).
  split; [exact Hstart |]. split; [exact Hwait |].
  apply Hok. reflexivity.
Defined.

(** ** The command line *)

Lemma bind_ret_l {A B : Type} (a : A) (k : A -> M B) (s : State) :
  bind (ret a) k s = k a s.
Proof.
  unfold bind, ret. destruct (k a s) as [[r s2] t2]. reflexivity.
Qed.

(** X9. [ParseFlags] reads no config file when the flags do not parse or when
    arguments are left over, and returns the error.  Otherwise it reads the
    configuration as [parseConfig] does, expanding the environment unless
    [-no-expand-env] is given, and returns its error; when that succeeds and
    arguments follow a double dash, they become the exec line, joined by
    single blanks, whatever the config file says.  An empty list after the
    double dash switches the subcommand off: [execCmd] then does nothing. *)
Theorem ParseFlags_exec_override (CL : CommandLine) (W : World)
    (args : list string) (s : State) :
  (forall e,
     parse_error (flag_Parse CL (fst (splitArgs CL args))) = Some e ->
     ParseFlags CL W args s = (Err e, s, [])) /\
  (parse_error (flag_Parse CL (fst (splitArgs CL args))) = None ->
   (0 < NArg (flag_Parse CL (fst (splitArgs CL args))))%nat ->
   ParseFlags CL W args s
   = (Err (ErrNew
        "too many arguments, specify a '--' to specify an exec command"),
      s, [])) /\
  (parse_error (flag_Parse CL (fst (splitArgs CL args))) = None ->
   NArg (flag_Parse CL (fst (splitArgs CL args))) = 0%nat ->
   let read :=
     parseConfig W (configPath (flag_Parse CL (fst (splitArgs CL args))))
       (negb (noExpandEnv (flag_Parse CL (fst (splitArgs CL args))))) s in
   trace_of (ParseFlags CL W args s) = trace_of read /\
   result_of (ParseFlags CL W args s) = result_of read /\
   (result_of read <> Ok tt ->
    state_of (ParseFlags CL W args s) = state_of read) /\
   (result_of read = Ok tt ->
    globals (state_of (ParseFlags CL W args s)) = globals (state_of read) /\
    config (this (state_of (ParseFlags CL W args s)))
    = match snd (splitArgs CL args) with
      | Some l => set_Exec (strings_Join l " ") (config (this (state_of read)))
      | None => config (this (state_of read))
      end /\
    forall W',
      snd (splitArgs CL args) = Some [] ->
      execCmd W' (state_of (ParseFlags CL W args s))
      = (Ok tt, state_of (ParseFlags CL W args s), []))).
Proof.
  unfold ParseFlags.
  destruct (splitArgs CL args) as [args0 args1]. cbn [fst snd].
  destruct (flag_Parse CL args0) as [path noexp n perr]. cbn.
  split; [| split].
  - intros e ->. reflexivity.
  - intros -> Hn. destruct n; [lia | reflexivity].
  - intros -> ->. cbn [check Nat.ltb Nat.leb].
    rewrite !bind_ret_l.
    rewrite trace_bind, result_bind, state_bind.
    set (read := parseConfig W path (negb noexp) s).
    destruct (result_of read) as [[] | e | msg |] eqn:Hr.
    + destruct args1 as [l |]; cbn; rewrite app_nil_r;
        repeat split; try congruence;
        try (intros W' [= ->]; reflexivity); try discriminate.
    + rewrite app_nil_r. repeat split; try congruence; try discriminate.
    + rewrite app_nil_r. repeat split; try congruence; try discriminate.
    + rewrite app_nil_r. repeat split; try congruence; try discriminate.
Qed.

Lemma ParseFlags_exec_override_witness :
  Exec (config (this (state_of
    (ParseFlags (sample_command_line 0%nat) config_world
       ["-config"; "/etc/litefs.yml"; "--"; "myapp"; "-v"]
       (start_state (NewMountCommand (sample_config None None "app")))))))
  = "myapp -v" /\
  ParseFlags (sample_command_line 1%nat) config_world
    ["-config"; "/etc/litefs.yml"; "stray"]
    (start_state (NewMountCommand (sample_config None None "app")))
  = (Err (ErrNew
       "too many arguments, specify a '--' to specify an exec command"),
     start_state (NewMountCommand (sample_config None None "app")), []).
Proof.
  split.
  - destruct (proj2 (proj2 (ParseFlags_exec_override (sample_command_line 0%nat)
                config_world
                ["-config"; "/etc/litefs.yml"; "--"; "myapp"; "-v"]
                (start_state (NewMountCommand (sample_config None None "app")))))
                eq_refl eq_refl) as (_ & _ & _ & Hok).
    destruct (Hok eq_refl) as (_ & Hcfg & _).
    rewrite Hcfg. reflexivity.
  - apply (proj1 (proj2 (ParseFlags_exec_override (sample_command_line 1%nat)
                config_world ["-config"; "/etc/litefs.yml"; "stray"]
                (start_state (NewMountCommand (sample_config None None "app"))))));
      [reflexivity | vm_compute; lia].
Defined.

(** ** How much [parseConfig] reads *)





(** ** When [Run] returns [nil] *)

Lemma Run_after_leaser_succeeds (W : World) (s : State) :
  Store (this s) <> None -> HTTPServer (this s) <> None ->
  result_of (Run_after_leaser W s) = Ok tt <->
  succeeded (Store_Open W)
  && (expvarOnce (globals s) || store_unpublished (globals s))
  && succeeded (FileSystem_Mount W)
  && wait_ends_ready W
  && exec_goes_through W (config (this s)) = true.
Proof.
  destruct s as [[k cfg [st |] l fsys [srv |] fn] g]; cbn;
    try congruence.
  intros _ _.
  unfold wait_ends_ready, exec_goes_through, store_unpublished. cbn.
  cases_after_leaser W cfg g;
    rewrite ?andb_false_r; cbn;
    split; intros H; try reflexivity; try discriminate H.
Qed.

Lemma instantiateLeaser_succeeds (W : World) (s : State) (srv : http.Server) :
  HTTPServer (this s) = Some srv ->
  result_of (instantiateLeaser W s) = Ok tt <->
  leaser_goes_through W (config (this s)) = true.
Proof.
  intros Hsrv. unfold instantiateLeaser, leaser_goes_through.
  rewrite result_bind. cbn [get_this result_of state_of fst snd].
  destruct (Consul (config (this s))) as [cc |] eqn:Hcc.
  - rewrite result_wrap.
    destruct (String.eqb_spec (ConsulConfig.Hostname cc) EmptyString)
      as [Hh | Hh]; cbn [negb orb].
    + destruct (snd (os_Hostname W)) as [x |] eqn:Hx; cbn [succeeded andb].
      * rewrite (initConsul_hostname_error W s cc x Hcc Hh Hx). cbn.
        split; discriminate.
      * rewrite (initConsul_run W s cc srv Hcc Hsrv (fun _ => Hx)). cbn zeta.
        destruct (Leaser_Open W); cbn; split; congruence.
    + rewrite (initConsul_run W s cc srv Hcc Hsrv
                 (fun H => False_ind _ (Hh H))). cbn zeta.
      destruct (Leaser_Open W); cbn; split; congruence.
  - destruct (Static (config (this s))); cbn; split; congruence.
Qed.

(** X11. [Run] returns [nil] exactly when every call on its way answers
    well: the HTTP server listens; the leaser statement goes through (in
    consul mode the hostname is configured or the lookup succeeds, and the
    leaser opens; otherwise a static section is present); the Store opens;
    [store] is not already published while [expvarOnce] is unset; the file
    system mounts; the wait ends with the readiness signal; and the exec
    line is empty, or parses to at least one word and the program starts. *)
Theorem Run_succeeds_iff (W : World) (s : State) :
  result_of (Run W s) = Ok tt <-> all_goes_through W s = true.
Proof.
  rewrite Run_result. unfold all_goes_through.
  destruct (Server_Listen W); cbn [succeeded andb]; [split; discriminate |].
  pose proof (instantiateLeaser_succeeds W (state_at_leaser s)
                (http.NewServer (HTTPConfig.Addr (HTTP (config (this s)))))
                eq_refl) as Hleaser.
  change (config (this (state_at_leaser s))) with (config (this s)) in Hleaser.
  destruct (instantiateLeaser_outcome W (state_at_leaser s)
              (http.NewServer (HTTPConfig.Addr (HTTP (config (this s)))))
              eq_refl)
    as [(l & Hr & Hs) | [(cc & x & _ & Hr & _) | (_ & _ & Hr & _)]];
    rewrite Hr in *.
  - rewrite (proj1 Hleaser eq_refl), Hs. cbn [andb].
    set (s3 := {| this := set_Leaser (Some l) (this (state_at_leaser s));
                  globals := globals (state_at_leaser s) |}).
    pose proof (Run_after_leaser_succeeds W s3) as Hafter.
    change (config (this s3)) with (config (this s)) in Hafter.
    change (globals s3) with (globals s) in Hafter.
    rewrite <- !andb_assoc in *.
    apply Hafter; discriminate.
  - destruct (leaser_goes_through W (config (this s)));
      [destruct Hleaser as [_ H]; specialize (H eq_refl); discriminate |].
    cbn. split; discriminate.
  - destruct (leaser_goes_through W (config (this s)));
      [destruct Hleaser as [_ H]; specialize (H eq_refl); discriminate |].
    cbn. split; discriminate.
Qed.
